(** * Call orchestrator: a shallow embedding of
      server/integrations/deepgram.ts and server/integrations/call-orchestrator.ts

    The orchestrator keeps one [CallSession] per live call in a registry
    keyed by call id, wires the transcription client's events to the turn
    generator and to speech synthesis, meters credits and ends calls.

    Conventions of the embedding.
    - JavaScript numbers that hold integers (timestamps in milliseconds,
      token counts, credits, byte values) are [Z].
    - Strings are [string]; a character is one code unit below 256.
    - [Date.now()] is an explicit argument [now] of every operation that
      reads the clock.
    - A call that the source awaits on a collaborator (the language model,
      the synthesis stream, the transcription socket) is run to completion
      with the collaborator's outcome given as an argument.  The
      exceptions are the playback loop of [speakResponse], whose
      suspension points are modelled explicitly, and [endCall], whose wait
      for the telephony provider splits it in two parts between which
      other operations can run.
    - Everything the orchestrator makes observable (events it emits, calls
      it makes on collaborators) is appended to the [trace] of the state,
      oldest first. *)

From Stdlib Require Import ZArith Lia Bool.
From stdpp Require Import base gmap strings list fin_maps.

Local Open Scope Z_scope.

(** ** Strings *)

(** The double quote and the line feed, which the prompt template contains. *)
Definition dquote : string := String (Ascii.ascii_of_nat 34) EmptyString.
Definition newline : string := String (Ascii.ascii_of_nat 10) EmptyString.

(** [Array.prototype.join]. *)
Fixpoint join (sep : string) (l : list string) : string :=
  match l with
  | [] => EmptyString
  | [a] => a
  | a :: rest => a +:+ sep +:+ join sep rest
  end.

(** White space as [String.prototype.trim] sees it, on code units below 256:
    TAB, LF, VT, FF, CR, SPACE and NBSP. *)
Definition is_js_space (c : Ascii.ascii) : bool :=
  match Ascii.N_of_ascii c with
  | 9%N | 10%N | 11%N | 12%N | 13%N | 32%N | 160%N => true
  | _ => false
  end.

Fixpoint trimStart (s : string) : string :=
  match s with
  | EmptyString => EmptyString
  | String c r => if is_js_space c then trimStart r else s
  end.

Fixpoint string_rev (s : string) : string :=
  match s with
  | EmptyString => EmptyString
  | String c r => string_rev r +:+ String c EmptyString
  end.

Definition trimEnd (s : string) : string := string_rev (trimStart (string_rev s)).

Definition trim (s : string) : string := trimEnd (trimStart s).

(** JavaScript truthiness of a string: the empty string is falsy. *)
Definition truthy (s : string) : bool :=
  match s with EmptyString => false | String _ _ => true end.

(** [a || b] on strings. *)
Definition or_else (a b : string) : string := if truthy a then a else b.

(** ** Data model: [AgentConfig], [CallSession] (call-orchestrator.ts) *)

Inductive Role := system | user | assistant.

Record Turn := { role : Role; content : string }.

Inductive LatencyMode := FAST | BALANCED | NATURAL.

Record Rules := {
  noLegal : bool;
  noMedical : bool;
  confirmBookings : bool;
  handoffOnConfusion : bool }.

Record AgentConfig := {
  id : string;
  name : string;
  language : string;
  instructions : string;
  greeting : string;
  fallbackMessage : string;
  voiceId : string;
  latencyMode : LatencyMode;
  rules : Rules }.

(** The telephony client's record of a call (signalwire.ts); the
    orchestrator stores it in the session and never reads it. *)
Record CallState := {
  cs_callId : string;
  cs_status : string;
  cs_direction : string;
  cs_to : string;
  cs_from : string;
  cs_startedAt : Z;
  cs_durationSec : Z }.

Record CallSession := {
  callId : string;
  tenantId : string;
  agentId : string;
  campaignId : option string;
  agent : AgentConfig;
  callState : CallState;
  conversationHistory : list Turn;
  creditsUsed : Z;
  startTime : Z;
  isSpeaking : bool;
  isListening : bool;
  silenceStart : option Z;
  lastUserSpeech : option Z;
  outcome : option string;
  transcriptSummary : list string }.

(** An audio frame: the bytes of a [Buffer]. *)
Definition Buffer := list Z.

Record AudioBuffer := { chunks : list Buffer; totalDuration : Z }.

(** ** The transcription client (deepgram.ts) *)

Record TranscriptResult := {
  text : string;
  isFinal : bool;
  speechFinal : bool }.

(** A message of the transcription socket after [JSON.parse]; [Malformed]
    is a payload on which [JSON.parse] throws.  A [Results] message carries
    [channel.alternatives[0].transcript] (absent when there is no
    alternative), and whether [is_final] and [speech_final] are [true]. *)
Inductive DeepgramMessage :=
| Results (transcript : option string) (is_final speech_final : bool)
| SpeechStarted
| UtteranceEnd
| Metadata
| ErrorMessage
| OtherMessage
| Malformed.

(** What the client emits to its listeners. *)
Inductive SttEvent :=
| Ev_transcript (r : TranscriptResult)
| Ev_finalTranscript (r : TranscriptResult)
| Ev_interimTranscript (r : TranscriptResult)
| Ev_speechEnd (r : TranscriptResult)
| Ev_speechStart
| Ev_utteranceEnd
| Ev_metadata
| Ev_error.

Definition parseTranscriptResult (transcript : option string)
    (is_final speech_final : bool) : TranscriptResult :=
  {| text := match transcript with Some t => or_else t EmptyString | None => EmptyString end;
     isFinal := is_final;
     speechFinal := speech_final |}.

Definition handleMessage (m : DeepgramMessage) : list SttEvent :=
  match m with
  | Results t f sf =>
      let result := parseTranscriptResult t f sf in
      if truthy (text result) then
        [Ev_transcript result]
        ++ (if isFinal result then [Ev_finalTranscript result]
            else [Ev_interimTranscript result])
        ++ (if speechFinal result then [Ev_speechEnd result] else [])
      else []
  | SpeechStarted => [Ev_speechStart]
  | UtteranceEnd => [Ev_utteranceEnd]
  | Metadata => [Ev_metadata]
  | ErrorMessage => [Ev_error]
  | OtherMessage => []
  | Malformed => [Ev_error]
  end.

(** The client object: [ws] is whether the socket field is non-null. *)
Record DeepgramSTTClient := {
  ws : bool;
  isConnected : bool;
  reconnectAttempts : Z }.

Definition createDeepgramSTT : DeepgramSTTClient :=
  {| ws := false; isConnected := false; reconnectAttempts := 0 |}.

Definition connected (c : DeepgramSTTClient) : bool := isConnected c.

(** ** What the orchestrator makes observable *)

Inductive Effect :=
| Emit_sessionInitialized (callId : string)
| Emit_userSpeaking (callId text : string) (isFinal : bool)
| Emit_userTranscript (callId text : string)
| Emit_sttError (callId : string)
| Emit_audioError (callId : string)
| Emit_bargeIn (callId : string)
| Emit_aiError (callId : string)
| Emit_aiSpeaking (callId text : string)
| Emit_ttsNotConfigured (callId text : string)
| Emit_audioOutput (callId : string) (audio : Buffer)
| Emit_ttsError (callId : string)
| Emit_aiFinishedSpeaking (callId : string)
| Emit_creditsDeducted (callId tenantId : string) (credits totalCredits : Z)
| Emit_callEnded (callId tenantId : string) (durationSec creditsUsed : Z) (reason : string)
| Call_sttConnect (callId : string) (language model : string) (endpointing : Z)
| Call_sttSendAudio (callId : string) (audio : Buffer)
| Call_sttDisconnect (callId : string)
| Call_chatCompletion (messages : list Turn)
| Call_signalwireEndCall (callId : string).

(** Which provider credentials the process environment holds. *)
Record ProcessEnv := {
  OPENAI_API_KEY : bool;
  DEEPGRAM_API_KEY : bool;
  ELEVENLABS_API_KEY : bool }.

(** The [CallOrchestrator] object, the module-level [openaiClient]
    (whether it has been created) and the trace. *)
Record Orchestrator := {
  env : ProcessEnv;
  activeSessions : gmap string CallSession;
  sttClients : gmap string DeepgramSTTClient;
  audioBuffers : gmap string AudioBuffer;
  ttsQueue : gmap string (list Buffer);
  openaiClient : bool;
  trace : list Effect }.

Definition SILENCE_THRESHOLD_MS : Z := 1500.
Definition MAX_CALL_DURATION_SEC : Z := 600.
Definition CREDITS_PER_MINUTE : Z := 5.

Definition newOrchestrator (e : ProcessEnv) : Orchestrator :=
  {| env := e; activeSessions := ∅; sttClients := ∅; audioBuffers := ∅;
     ttsQueue := ∅; openaiClient := false; trace := [] |}.

(** ** Field updates *)

Definition set_conversationHistory (h : list Turn) (s : CallSession) : CallSession :=
  {| callId := callId s; tenantId := tenantId s; agentId := agentId s;
     campaignId := campaignId s; agent := agent s; callState := callState s;
     conversationHistory := h; creditsUsed := creditsUsed s;
     startTime := startTime s; isSpeaking := isSpeaking s;
     isListening := isListening s; silenceStart := silenceStart s;
     lastUserSpeech := lastUserSpeech s; outcome := outcome s;
     transcriptSummary := transcriptSummary s |}.

Definition set_creditsUsed (c : Z) (s : CallSession) : CallSession :=
  {| callId := callId s; tenantId := tenantId s; agentId := agentId s;
     campaignId := campaignId s; agent := agent s; callState := callState s;
     conversationHistory := conversationHistory s; creditsUsed := c;
     startTime := startTime s; isSpeaking := isSpeaking s;
     isListening := isListening s; silenceStart := silenceStart s;
     lastUserSpeech := lastUserSpeech s; outcome := outcome s;
     transcriptSummary := transcriptSummary s |}.

Definition set_isSpeaking (b : bool) (s : CallSession) : CallSession :=
  {| callId := callId s; tenantId := tenantId s; agentId := agentId s;
     campaignId := campaignId s; agent := agent s; callState := callState s;
     conversationHistory := conversationHistory s; creditsUsed := creditsUsed s;
     startTime := startTime s; isSpeaking := b;
     isListening := isListening s; silenceStart := silenceStart s;
     lastUserSpeech := lastUserSpeech s; outcome := outcome s;
     transcriptSummary := transcriptSummary s |}.

Definition set_isListening (b : bool) (s : CallSession) : CallSession :=
  {| callId := callId s; tenantId := tenantId s; agentId := agentId s;
     campaignId := campaignId s; agent := agent s; callState := callState s;
     conversationHistory := conversationHistory s; creditsUsed := creditsUsed s;
     startTime := startTime s; isSpeaking := isSpeaking s;
     isListening := b; silenceStart := silenceStart s;
     lastUserSpeech := lastUserSpeech s; outcome := outcome s;
     transcriptSummary := transcriptSummary s |}.

Definition set_silenceStart (t : option Z) (s : CallSession) : CallSession :=
  {| callId := callId s; tenantId := tenantId s; agentId := agentId s;
     campaignId := campaignId s; agent := agent s; callState := callState s;
     conversationHistory := conversationHistory s; creditsUsed := creditsUsed s;
     startTime := startTime s; isSpeaking := isSpeaking s;
     isListening := isListening s; silenceStart := t;
     lastUserSpeech := lastUserSpeech s; outcome := outcome s;
     transcriptSummary := transcriptSummary s |}.

Definition set_lastUserSpeech (t : option Z) (s : CallSession) : CallSession :=
  {| callId := callId s; tenantId := tenantId s; agentId := agentId s;
     campaignId := campaignId s; agent := agent s; callState := callState s;
     conversationHistory := conversationHistory s; creditsUsed := creditsUsed s;
     startTime := startTime s; isSpeaking := isSpeaking s;
     isListening := isListening s; silenceStart := silenceStart s;
     lastUserSpeech := t; outcome := outcome s;
     transcriptSummary := transcriptSummary s |}.

Definition set_transcriptSummary (l : list string) (s : CallSession) : CallSession :=
  {| callId := callId s; tenantId := tenantId s; agentId := agentId s;
     campaignId := campaignId s; agent := agent s; callState := callState s;
     conversationHistory := conversationHistory s; creditsUsed := creditsUsed s;
     startTime := startTime s; isSpeaking := isSpeaking s;
     isListening := isListening s; silenceStart := silenceStart s;
     lastUserSpeech := lastUserSpeech s; outcome := outcome s;
     transcriptSummary := l |}.

(** [array.push(x)] on the two arrays of a session. *)
Definition push_history (t : Turn) (s : CallSession) : CallSession :=
  set_conversationHistory (conversationHistory s ++ [t]) s.

Definition push_summary (line : string) (s : CallSession) : CallSession :=
  set_transcriptSummary (transcriptSummary s ++ [line]) s.

Definition set_activeSessions (m : gmap string CallSession) (st : Orchestrator) : Orchestrator :=
  {| env := env st; activeSessions := m; sttClients := sttClients st;
     audioBuffers := audioBuffers st; ttsQueue := ttsQueue st;
     openaiClient := openaiClient st; trace := trace st |}.

Definition set_sttClients (m : gmap string DeepgramSTTClient) (st : Orchestrator) : Orchestrator :=
  {| env := env st; activeSessions := activeSessions st; sttClients := m;
     audioBuffers := audioBuffers st; ttsQueue := ttsQueue st;
     openaiClient := openaiClient st; trace := trace st |}.

Definition set_audioBuffers (m : gmap string AudioBuffer) (st : Orchestrator) : Orchestrator :=
  {| env := env st; activeSessions := activeSessions st; sttClients := sttClients st;
     audioBuffers := m; ttsQueue := ttsQueue st;
     openaiClient := openaiClient st; trace := trace st |}.

Definition set_ttsQueue (m : gmap string (list Buffer)) (st : Orchestrator) : Orchestrator :=
  {| env := env st; activeSessions := activeSessions st; sttClients := sttClients st;
     audioBuffers := audioBuffers st; ttsQueue := m;
     openaiClient := openaiClient st; trace := trace st |}.

Definition set_openaiClient (b : bool) (st : Orchestrator) : Orchestrator :=
  {| env := env st; activeSessions := activeSessions st; sttClients := sttClients st;
     audioBuffers := audioBuffers st; ttsQueue := ttsQueue st;
     openaiClient := b; trace := trace st |}.

(** [this.emit(...)] and calls on collaborators: one more entry of the trace. *)
Definition emit (e : Effect) (st : Orchestrator) : Orchestrator :=
  {| env := env st; activeSessions := activeSessions st; sttClients := sttClients st;
     audioBuffers := audioBuffers st; ttsQueue := ttsQueue st;
     openaiClient := openaiClient st; trace := trace st ++ [e] |}.

Definition emit_all (es : list Effect) (st : Orchestrator) : Orchestrator :=
  {| env := env st; activeSessions := activeSessions st; sttClients := sttClients st;
     audioBuffers := audioBuffers st; ttsQueue := ttsQueue st;
     openaiClient := openaiClient st; trace := trace st ++ es |}.

(** A write to a field of the session object registered under [cid]. *)
Definition putSession (cid : string) (s : CallSession) (st : Orchestrator) : Orchestrator :=
  set_activeSessions (<[cid := s]> (activeSessions st)) st.

(** ** Collaborator outcomes *)

(** How a promise settles. *)
Inductive Outcome (A : Type) :=
| Resolved (a : A)
| Rejected (error : string).
Arguments Resolved {A} a.
Arguments Rejected {A} error.

(** [chat.completions.create]: it rejects (time-out, provider error), or it
    resolves with [choices[0]?.message?.content] and [usage?.total_tokens],
    either of which may be absent. *)
Inductive Completion :=
| CompletionRejects
| CompletionResolves (content : option string) (total_tokens : option Z).

(** The frames [elevenlabs.textToSpeechStream] yields, and whether the
    generator throws after the last of them (a failed request yields none). *)
Record TtsStream := { frames : list Buffer; throws : bool }.

(** Whether the socket of [stt.connect] opens or errors first. *)
Inductive Connect := Opens | Errors.

(** [signalwire.endCall]; the orchestrator ignores a rejection. *)
Inductive Hangup := HangupOk | HangupRejects.

(** Handlers that can run on a session while the playback loop is
    suspended in [for await], each given by its writes to the session.
    Between them they cover every write to a session field in the source. *)
Inductive Interleaved :=
| I_bargeIn                        (* handleBargeIn *)
| I_transcript (now : Z)           (* the "transcript" listener *)
| I_speechEnd (now : Z)            (* the "speechEnd" listener *)
| I_pushUser (text : string)       (* processUserInput pushes the user turn *)
| I_pushAssistant (text : string)  (* processUserInput pushes the reply *)
| I_speakStart                     (* another speakResponse sets the flag *)
| I_speakFinish                    (* another speakResponse reaches finally *)
| I_pushSummary (line : string)    (* a line pushed onto the transcript summary *)
| I_setCredits (credits : Z)       (* metering or a generation writes the counter *)
| I_silenceCleared.                (* the silence check of handleAudioInput *)

(** What one turn meets: the completion, the synthesis stream, and the
    handlers interleaved with the playback of each frame. *)
Record TurnWorld := {
  llm : Completion;
  tts : TtsStream;
  sched : list (list Interleaved) }.

(** The final statistics of [endCall]. *)
Record Stats := {
  stats_durationSec : Z;
  stats_creditsUsed : Z;
  stats_transcriptSummary : string }.

(** ** Arithmetic and arrays *)

(** [Math.ceil(a / b)] for a positive [b]. *)
Definition ceil_div (a b : Z) : Z := - ((- a) / b).

(** [array.slice(-n)]: the last [n] elements, all of them when there are
    fewer. *)
Definition slice_last {A} (n : nat) (l : list A) : list A :=
  drop (length l - n)%nat l.

(** ** The orchestrator's operations *)

Definition buildSystemPrompt (agent : AgentConfig) : string :=
  let rules_ : list string :=
    (if noLegal (rules agent) then ["Never provide legal advice"] else [])
    ++ (if noMedical (rules agent) then ["Never provide medical advice"] else [])
    ++ (if confirmBookings (rules agent)
        then ["Always confirm booking details before finalizing"] else [])
    ++ (if handoffOnConfusion (rules agent)
        then ["If confused for more than 2 exchanges, offer to connect to a human"]
        else []) in
  "You are " +:+ name agent +:+ ", an AI voice assistant on a phone call."
  +:+ newline +:+ newline
  +:+ "INSTRUCTIONS:" +:+ newline
  +:+ instructions agent +:+ newline +:+ newline
  +:+ "RULES:" +:+ newline
  +:+ join newline (map (fun r => "- " +:+ r) rules_) +:+ newline +:+ newline
  +:+ "IMPORTANT VOICE GUIDELINES:" +:+ newline
  +:+ "1. Keep responses SHORT (1-2 sentences max for phone)" +:+ newline
  +:+ "2. Speak naturally with conversational fillers like "
  +:+ dquote +:+ "Sure" +:+ dquote +:+ ", "
  +:+ dquote +:+ "Let me check" +:+ dquote +:+ ", "
  +:+ dquote +:+ "Got it" +:+ dquote +:+ newline
  +:+ "3. Use simple, clear language" +:+ newline
  +:+ "4. Ask one question at a time" +:+ newline
  +:+ "5. Confirm understanding before moving on" +:+ newline
  +:+ "6. If user is silent, politely check if they're still there"
  +:+ newline +:+ newline
  +:+ "When unsure, use this fallback: "
  +:+ dquote +:+ fallbackMessage agent +:+ dquote +:+ newline +:+ newline
  +:+ "Start the conversation with a warm greeting.".

(** The session literal that [initializeSession] builds; [known] is
    [signalwire.getCallState(callId)]. *)
Definition newSession (now : Z) (callId tenantId agentId : string)
    (agent : AgentConfig) (campaignId : option string)
    (known : option CallState) : CallSession :=
  {| callId := callId;
     tenantId := tenantId;
     agentId := agentId;
     campaignId := campaignId;
     agent := agent;
     callState :=
       match known with
       | Some c => c
       | None => {| cs_callId := callId; cs_status := "initiated";
                    cs_direction := "outbound"; cs_to := EmptyString;
                    cs_from := EmptyString; cs_startedAt := now;
                    cs_durationSec := 0 |}
       end;
     conversationHistory := [ {| role := system; content := buildSystemPrompt agent |} ];
     creditsUsed := 0;
     startTime := now;
     isSpeaking := false;
     isListening := false;
     silenceStart := None;
     lastUserSpeech := None;
     outcome := None;
     transcriptSummary := [] |}.

(** [initializeSession].  The session and the transcription client are
    registered first; the client connects only when its key is configured,
    and a socket error before the open rejects the whole call, after the
    registration. *)
Definition initializeSession (now : Z) (callId tenantId agentId : string)
    (agent : AgentConfig) (campaignId : option string)
    (known : option CallState) (conn : Connect)
    (st : Orchestrator) : Orchestrator * Outcome CallSession :=
  let session := newSession now callId tenantId agentId agent campaignId known in
  let st := set_activeSessions (<[callId := session]> (activeSessions st)) st in
  let st := set_audioBuffers
              (<[callId := {| chunks := []; totalDuration := 0 |}]> (audioBuffers st)) st in
  let st := set_ttsQueue (<[callId := []]> (ttsQueue st)) st in
  let stt := createDeepgramSTT in
  let st := set_sttClients (<[callId := stt]> (sttClients st)) st in
  if DEEPGRAM_API_KEY (env st) then
    let st := emit (Call_sttConnect callId
                      (or_else (language agent) "en-US")
                      (match latencyMode agent with FAST => "nova-2" | _ => "nova-2-general" end)
                      (match latencyMode agent with FAST => 200 | _ => 300 end)) st in
    match conn with
    | Opens =>
        let st := set_sttClients
                    (<[callId := {| ws := true; isConnected := true;
                                    reconnectAttempts := 0 |}]> (sttClients st)) st in
        (emit (Emit_sessionInitialized callId) st, Resolved session)
    | Errors =>
        let st := set_sttClients
                    (<[callId := {| ws := true; isConnected := false;
                                    reconnectAttempts := 0 |}]> (sttClients st)) st in
        (emit (Emit_sttError callId) st, Rejected "socket error")
    end
  else (emit (Emit_sessionInitialized callId) st, Resolved session).

(** What an [endCall] holds on to while it waits for the telephony
    provider: the session object, and the duration and the summary that it
    computed before the wait.  [pe_session] is the object as it is when
    the wait is over, which is when its credits are read. *)
Record PendingEnd := {
  pe_callId : string;
  pe_session : CallSession;
  pe_durationSec : Z;
  pe_transcriptSummary : string;
  pe_reason : string }.

(** [endCall] up to [await signalwire.endCall(callId)]: without a
    registered session it is over at once; otherwise the transcription
    client is disconnected and unregistered, the duration and the summary
    are computed and the telephony provider is asked to hang up.  The
    session stays registered during the wait. *)
Definition endCall_begin (now : Z) (callId reason : string) (st : Orchestrator)
  : Orchestrator * option PendingEnd :=
  match activeSessions st !! callId with
  | None => (st, None)
  | Some session =>
      let st :=
        match sttClients st !! callId with
        | Some stt =>
            set_sttClients (delete callId (sttClients st))
              (emit (Call_sttDisconnect callId) st)
        | None => st
        end in
      let durationSec := (now - startTime session) / 1000 in
      let transcriptSummary_ := join newline (transcriptSummary session) in
      let st := emit (Call_signalwireEndCall callId) st in
      (st, Some {| pe_callId := callId; pe_session := session;
                   pe_durationSec := durationSec;
                   pe_transcriptSummary := transcriptSummary_;
                   pe_reason := reason |})
  end.

(** [endCall] after the wait, whatever the provider answered: whatever
    is registered under the id in the three other registries is removed,
    "callEnded" is emitted and the statistics are returned. *)
Definition endCall_finish (p : PendingEnd) (hang : Hangup) (st : Orchestrator)
  : Orchestrator * Stats :=
  let callId := pe_callId p in
  let st := set_activeSessions (delete callId (activeSessions st)) st in
  let st := set_audioBuffers (delete callId (audioBuffers st)) st in
  let st := set_ttsQueue (delete callId (ttsQueue st)) st in
  let st := emit (Emit_callEnded callId (tenantId (pe_session p)) (pe_durationSec p)
                    (creditsUsed (pe_session p)) (pe_reason p)) st in
  (st, {| stats_durationSec := pe_durationSec p;
          stats_creditsUsed := creditsUsed (pe_session p);
          stats_transcriptSummary := pe_transcriptSummary p |}).

(** [endCall] when nothing else runs during its wait: both parts in one
    go.  Without a registered session it returns the empty statistics;
    otherwise it disconnects and unregisters the transcription client,
    computes the statistics, asks the telephony provider to hang up
    (ignoring a failure), unregisters the session and emits "callEnded". *)
Definition endCall (now : Z) (callId reason : string) (hang : Hangup)
    (st : Orchestrator) : Orchestrator * Stats :=
  match activeSessions st !! callId with
  | None =>
      (st, {| stats_durationSec := 0; stats_creditsUsed := 0;
              stats_transcriptSummary := EmptyString |})
  | Some session =>
      let st :=
        match sttClients st !! callId with
        | Some stt =>
            set_sttClients (delete callId (sttClients st))
              (emit (Call_sttDisconnect callId) st)
        | None => st
        end in
      let durationSec := (now - startTime session) / 1000 in
      let transcriptSummary_ := join newline (transcriptSummary session) in
      let st := emit (Call_signalwireEndCall callId) st in
      let st := set_activeSessions (delete callId (activeSessions st)) st in
      let st := set_audioBuffers (delete callId (audioBuffers st)) st in
      let st := set_ttsQueue (delete callId (ttsQueue st)) st in
      let st := emit (Emit_callEnded callId (tenantId session) durationSec
                        (creditsUsed session) reason) st in
      (st, {| stats_durationSec := durationSec;
              stats_creditsUsed := creditsUsed session;
              stats_transcriptSummary := transcriptSummary_ |})
  end.

(** [updateCallCredits] on the session registered under [cid].  The
    elapsed time is [now - startTime] milliseconds; [durationSec / 60]
    rounded up is the elapsed milliseconds over 60000 rounded up, and
    [durationSec >= 600] is [600000 <= now - startTime].  At the ceiling
    [endCall] is called and not awaited: it runs up to its wait for the
    telephony provider and is completed later, by [endCall_finish]; the
    provider's answer [hang] plays no part here. *)
Definition updateCallCredits (now : Z) (cid : string) (hang : Hangup)
    (st : Orchestrator) : Orchestrator :=
  match activeSessions st !! cid with
  | None => st
  | Some session =>
      let durationMs := now - startTime session in
      let durationMin := ceil_div durationMs 60000 in
      let newCredits := durationMin * CREDITS_PER_MINUTE in
      let st :=
        if newCredits >? creditsUsed session then
          let delta := newCredits - creditsUsed session in
          emit (Emit_creditsDeducted (callId session) (tenantId session) delta newCredits)
            (putSession cid (set_creditsUsed newCredits session) st)
        else st in
      if MAX_CALL_DURATION_SEC * 1000 <=? durationMs then
        fst (endCall_begin now (callId session) "max_duration" st)
      else st
  end.

(** [detectVoiceActivity]: the mean of [|b - 128|] over the frame exceeds
    10.  On an empty frame the mean is 0/0, which compares false. *)
Definition detectVoiceActivity (audioData : Buffer) : bool :=
  let sum := fold_left (fun acc b => acc + Z.abs (b - 128)) audioData 0 in
  sum >? 10 * Z.of_nat (length audioData).

Definition handleBargeIn (callId : string) (st : Orchestrator) : Orchestrator :=
  match activeSessions st !! callId with
  | None => st
  | Some session =>
      let st := putSession callId (set_isSpeaking false session) st in
      let st := set_ttsQueue (<[callId := []]> (ttsQueue st)) st in
      emit (Emit_bargeIn callId) st
  end.

(** The silence check of [handleAudioInput]; a time stamp of 0 is falsy. *)
Definition checkSilence (now : Z) (cid : string) (st : Orchestrator) : Orchestrator :=
  match activeSessions st !! cid with
  | None => st
  | Some session =>
      match silenceStart session with
      | Some t =>
          if (negb (t =? 0)) && (SILENCE_THRESHOLD_MS <? now - t)
             && negb (isSpeaking session)
          then putSession cid (set_silenceStart None session) st
          else st
      | None => st
      end
  end.

(** [handleAudioInput]. *)
Definition handleAudioInput (now : Z) (callId : string) (audioData : Buffer)
    (hang : Hangup) (st : Orchestrator) : Orchestrator :=
  match activeSessions st !! callId with
  | None => st
  | Some session =>
      match sttClients st !! callId with
      | None => st
      | Some stt =>
          if negb (connected stt) then st
          else
            let st :=
              if isSpeaking session then
                if detectVoiceActivity audioData then handleBargeIn callId st else st
              else st in
            let st :=
              if isConnected stt && ws stt
              then emit (Call_sttSendAudio callId audioData) st
              else emit (Emit_audioError callId) st in
            let st := checkSilence now callId st in
            updateCallCredits now callId hang st
      end
  end.

(** [getOpenAI]: the client is created on first use and needs the key. *)
Definition getOpenAI (st : Orchestrator) : Orchestrator * Outcome unit :=
  if openaiClient st then (st, Resolved tt)
  else if OPENAI_API_KEY (env st) then (set_openaiClient true st, Resolved tt)
  else (st, Rejected "OPENAI_API_KEY is not configured").

(** [generateResponse] on the session registered under [cid]: the reply,
    with the session's credits and the trace updated.  Everything thrown
    inside, [getOpenAI]'s error included, is caught. *)
Definition generateResponse (cid : string) (session : CallSession)
    (completion : Completion) (st : Orchestrator) : Orchestrator * string :=
  let recentHistory := slice_last 10 (conversationHistory session) in
  match getOpenAI st with
  | (st, Rejected _) =>
      (emit (Emit_aiError (callId session)) st, fallbackMessage (agent session))
  | (st, Resolved _) =>
      let st := emit (Call_chatCompletion recentHistory) st in
      match completion with
      | CompletionRejects =>
          (emit (Emit_aiError (callId session)) st, fallbackMessage (agent session))
      | CompletionResolves content total_tokens =>
          let tokensUsed :=
            match total_tokens with
            | Some t => t
            | None => 0
            end in
          let st := putSession cid
                      (set_creditsUsed (creditsUsed session + ceil_div tokensUsed 100)
                         session) st in
          (st, match content with
               | Some c => or_else c (fallbackMessage (agent session))
               | None => fallbackMessage (agent session)
               end)
      end
  end.

(** The writes of an interleaved handler. *)
Definition run_interleaved (i : Interleaved) (s : CallSession) : CallSession :=
  match i with
  | I_bargeIn => set_isSpeaking false s
  | I_transcript now =>
      set_isListening true (set_silenceStart None (set_lastUserSpeech (Some now) s))
  | I_speechEnd now => set_silenceStart (Some now) (set_isListening false s)
  | I_pushUser t => push_history {| role := user; content := t |} s
  | I_pushAssistant t => push_history {| role := assistant; content := t |} s
  | I_speakStart => set_isSpeaking true s
  | I_speakFinish => set_isSpeaking false s
  | I_pushSummary line => push_summary line s
  | I_setCredits credits => set_creditsUsed credits s
  | I_silenceCleared => set_silenceStart None s
  end.

Definition run_slot (slot : list Interleaved) (s : CallSession) : CallSession :=
  fold_left (fun acc i => run_interleaved i acc) slot s.

(** The [for await] loop of [speakResponse].  Each iteration first
    suspends for the next frame, during which the handlers of the next
    slot of [sched] run; then the body tests [session.isSpeaking], leaves
    the loop when it is false and emits the frame otherwise.  A generator
    that throws ends the loop in the [catch] clause. *)
Fixpoint playback (cid : string) (chunks : list Buffer) (throws_ : bool)
    (sched : list (list Interleaved)) (s : CallSession)
    : CallSession * list Effect :=
  let s := run_slot (hd [] sched) s in
  match chunks with
  | [] => (s, if throws_ then [Emit_ttsError cid] else [])
  | chunk :: rest =>
      if negb (isSpeaking s) then (s, [])
      else
        let '(s', es) := playback cid rest throws_ (tl sched) s in
        (s', Emit_audioOutput cid chunk :: es)
  end.

(** [speakResponse].  The [finally] clause also runs after the early
    return of the unconfigured case. *)
Definition speakResponse (callId text : string) (stream : TtsStream)
    (sched : list (list Interleaved)) (st : Orchestrator) : Orchestrator :=
  match activeSessions st !! callId with
  | None => st
  | Some session =>
      let session := set_isSpeaking true session in
      let st := emit (Emit_aiSpeaking callId text) (putSession callId session st) in
      if negb (ELEVENLABS_API_KEY (env st)) then
        let st := emit (Emit_ttsNotConfigured callId text) st in
        let session := set_isSpeaking false session in
        let session := set_isSpeaking false session in
        emit (Emit_aiFinishedSpeaking callId) (putSession callId session st)
      else
        let '(session, es) := playback callId (frames stream) (throws stream) sched session in
        let st := emit_all es st in
        let session := set_isSpeaking false session in
        emit (Emit_aiFinishedSpeaking callId) (putSession callId session st)
  end.

(** [processUserInput]. *)
Definition processUserInput (callId userText : string) (w : TurnWorld)
    (st : Orchestrator) : Orchestrator :=
  match activeSessions st !! callId with
  | None => st
  | Some session =>
      let session := push_history {| role := user; content := userText |} session in
      let st := putSession callId session st in
      let '(st, response) := generateResponse callId session (llm w) st in
      if negb (truthy response) then st
      else
        match activeSessions st !! callId with
        | None => st
        | Some session =>
            let session :=
              push_history {| role := assistant; content := response |} session in
            let session := push_summary ("AI: " +:+ response) session in
            let st := putSession callId session st in
            speakResponse callId response (tts w) (sched w) st
        end
  end.

(** [sendGreeting]. *)
Definition sendGreeting (callId : string) (stream : TtsStream)
    (sched : list (list Interleaved)) (st : Orchestrator) : Orchestrator :=
  match activeSessions st !! callId with
  | None => st
  | Some session =>
      let greeting_ := greeting (agent session) in
      let session := push_history {| role := assistant; content := greeting_ |} session in
      let session := push_summary ("AI: " +:+ greeting_) session in
      speakResponse callId greeting_ stream sched (putSession callId session st)
  end.

(** The listeners of [setupSTTHandlers].  They close over the session
    object created together with the client, which is the object
    registered under [callId] as long as a session and the client are
    registered.  They do not look the session up: when none is registered
    their writes go to an object that nobody reads, and they emit all the
    same. *)
Definition onSttEvent (now : Z) (callId : string) (ev : SttEvent) (w : TurnWorld)
    (st : Orchestrator) : Orchestrator :=
  match ev with
  | Ev_error => emit (Emit_sttError callId) st
  | Ev_transcript result =>
      match activeSessions st !! callId with
      | None =>
          if negb (truthy (text result)) then st
          else emit (Emit_userSpeaking callId (text result) (isFinal result)) st
      | Some session =>
          if negb (truthy (text result)) then st
          else
            let session := set_lastUserSpeech (Some now) session in
            let session := set_silenceStart None session in
            let session := set_isListening true session in
            emit (Emit_userSpeaking callId (text result) (isFinal result))
              (putSession callId session st)
      end
  | Ev_finalTranscript result =>
      match activeSessions st !! callId with
      | None =>
          if negb (truthy (trim (text result))) then st
          else processUserInput callId (text result) w
                 (emit (Emit_userTranscript callId (text result)) st)
      | Some session =>
          if negb (truthy (trim (text result))) then st
          else
            let session := push_summary ("User: " +:+ text result) session in
            let st := emit (Emit_userTranscript callId (text result))
                        (putSession callId session st) in
            processUserInput callId (text result) w st
      end
  | Ev_speechEnd _ =>
      match activeSessions st !! callId with
      | None => st
      | Some session =>
          let session := set_isListening false session in
          let session := set_silenceStart (Some now) session in
          putSession callId session st
      end
  | Ev_interimTranscript _ | Ev_speechStart | Ev_utteranceEnd | Ev_metadata => st
  end.

(** A message arriving on the socket of the client registered under
    [callId]: [handleMessage] and then the listeners, in emission order.
    A message for a client that is not registered any more is a
    [lateSttMessage], below. *)
Definition sttMessage (now : Z) (callId : string) (m : DeepgramMessage)
    (w : TurnWorld) (st : Orchestrator) : Orchestrator :=
  match sttClients st !! callId with
  | None => st
  | Some stt =>
      if ws stt
      then fold_left (fun acc ev => onSttEvent now callId ev w acc) (handleMessage m) st
      else st
  end.

(** The same listeners when the session object they closed over is no
    longer the registered one (the call was ended, or begun again under
    the same id): their writes to that object are not seen by anyone, but
    they still emit, and a final transcript still starts a turn on
    whatever session is registered under the id. *)
Definition onDetachedSttEvent (now : Z) (callId : string) (ev : SttEvent) (w : TurnWorld)
    (st : Orchestrator) : Orchestrator :=
  match ev with
  | Ev_error => emit (Emit_sttError callId) st
  | Ev_transcript result =>
      if negb (truthy (text result)) then st
      else emit (Emit_userSpeaking callId (text result) (isFinal result)) st
  | Ev_finalTranscript result =>
      if negb (truthy (trim (text result))) then st
      else processUserInput callId (text result) w
             (emit (Emit_userTranscript callId (text result)) st)
  | Ev_speechEnd _ | Ev_interimTranscript _ | Ev_speechStart | Ev_utteranceEnd
  | Ev_metadata => st
  end.

(** A message that reaches the listeners of a client after it was
    unregistered: [disconnect] removes no listener.  [own] tells whether
    the session object of these listeners is the one registered now, as
    it is while an [endCall] waits for the telephony provider. *)
Definition lateSttMessage (now : Z) (callId : string) (m : DeepgramMessage)
    (w : TurnWorld) (own : bool) (st : Orchestrator) : Orchestrator :=
  fold_left (fun acc ev => if own then onSttEvent now callId ev w acc
                           else onDetachedSttEvent now callId ev w acc)
    (handleMessage m) st.

(** ** Runs of the orchestrator *)

(** The calls the surrounding system makes, and the socket's messages.
    An [endCall] is either run in one go ([OpEndCall]) or in its two
    parts, with other operations in between: [OpEndCallBegins], and
    [OpEndCallSettles] for an [endCall] that was waiting, the one begun at
    the duration ceiling included.  A socket message is delivered to the
    listeners of the client registered under the id ([OpSttMessage]) or
    to those of a client that was unregistered ([OpLateSttMessage]). *)
Inductive Op :=
| OpInitialize (now : Z) (callId tenantId agentId : string) (agent : AgentConfig)
    (campaignId : option string) (known : option CallState) (conn : Connect)
| OpGreeting (callId : string) (stream : TtsStream) (sched : list (list Interleaved))
| OpAudio (now : Z) (callId : string) (audioData : Buffer) (hang : Hangup)
| OpSttMessage (now : Z) (callId : string) (m : DeepgramMessage) (w : TurnWorld)
| OpEndCall (now : Z) (callId reason : string) (hang : Hangup)
| OpEndCallBegins (now : Z) (callId reason : string)
| OpEndCallSettles (p : PendingEnd) (hang : Hangup)
| OpLateSttMessage (now : Z) (callId : string) (m : DeepgramMessage) (w : TurnWorld)
    (own : bool).

Definition step (st : Orchestrator) (op : Op) : Orchestrator :=
  match op with
  | OpInitialize now cid tid aid ag camp known conn =>
      fst (initializeSession now cid tid aid ag camp known conn st)
  | OpGreeting cid stream sch => sendGreeting cid stream sch st
  | OpAudio now cid audio hang => handleAudioInput now cid audio hang st
  | OpSttMessage now cid m w => sttMessage now cid m w st
  | OpEndCall now cid reason hang => fst (endCall now cid reason hang st)
  | OpEndCallBegins now cid reason => fst (endCall_begin now cid reason st)
  | OpEndCallSettles p hang => fst (endCall_finish p hang st)
  | OpLateSttMessage now cid m w own => lateSttMessage now cid m w own st
  end.

Definition run (ops : list Op) (st : Orchestrator) : Orchestrator :=
  fold_left step ops st.

(** ** Metering logs *)

(** The two sources of credits: a time-based update at clock [now], and a
    turn generation that meets [completion]. *)
Inductive MeterEvent :=
| ElapsedTime (now : Z) (hang : Hangup)
| TurnGenerated (completion : Completion).

(** The provider-reported usage of a completion, [0] when it is absent or
    the call failed. *)
Definition resourceUnits (c : Completion) : Z :=
  match c with
  | CompletionResolves _ (Some t) => t
  | _ => 0
  end.

Definition meter (cid : string) (st : Orchestrator) (ev : MeterEvent) : Orchestrator :=
  match ev with
  | ElapsedTime now hang => updateCallCredits now cid hang st
  | TurnGenerated c =>
      match activeSessions st !! cid with
      | Some session => fst (generateResponse cid session c st)
      | None => st
      end
  end.

Definition run_meter (cid : string) (log : list MeterEvent) (st : Orchestrator)
  : Orchestrator :=
  fold_left (meter cid) log st.

(** The counter of the session registered under [cid], if there is one. *)
Definition credits_of (cid : string) (st : Orchestrator) : option Z :=
  creditsUsed <$> activeSessions st !! cid.

(** The credits that [minutes] elapsed since [start] cost at the fixed rate. *)
Definition minuteCredits (start now : Z) : Z :=
  ceil_div (now - start) 60000 * CREDITS_PER_MINUTE.

(** The total as the specification words it, computed from the log alone:
    the sum of [ceil(minute_i) * rate] over the time-based updates plus the
    sum of [ceil(resourceUnits_j / unitSize)] over the turn generations. *)
Fixpoint claimed_total (start : Z) (log : list MeterEvent) : Z :=
  match log with
  | [] => 0
  | ElapsedTime now _ :: rest => minuteCredits start now + claimed_total start rest
  | TurnGenerated c :: rest => ceil_div (resourceUnits c) 100 + claimed_total start rest
  end.

(** The same log read the way the counter moves: a time-based update
    raises the counter to the cost of the elapsed minutes when it is below
    it, a turn generation adds its credits. *)
Definition metered_step (start : Z) (c : Z) (ev : MeterEvent) : Z :=
  match ev with
  | ElapsedTime now _ => Z.max c (minuteCredits start now)
  | TurnGenerated k => c + ceil_div (resourceUnits k) 100
  end.

Definition metered (start : Z) (c0 : Z) (log : list MeterEvent) : Z :=
  fold_left (metered_step start) log c0.

(** The largest time-based cost and the sum of the turn credits of a log. *)
Fixpoint max_minuteCredits (start : Z) (log : list MeterEvent) : Z :=
  match log with
  | [] => 0
  | ElapsedTime now _ :: rest => Z.max (minuteCredits start now) (max_minuteCredits start rest)
  | TurnGenerated _ :: rest => max_minuteCredits start rest
  end.

Fixpoint sum_turnCredits (log : list MeterEvent) : Z :=
  match log with
  | [] => 0
  | ElapsedTime _ _ :: rest => sum_turnCredits rest
  | TurnGenerated k :: rest => ceil_div (resourceUnits k) 100 + sum_turnCredits rest
  end.

(** Usage counts are never negative. *)
Definition usage_nonneg (ev : MeterEvent) : Prop :=
  match ev with
  | ElapsedTime _ _ => True
  | TurnGenerated k => 0 <= resourceUnits k
  end.

(** The turn generator can be reached: its client exists already or the
    key to create it is configured. *)
Definition llm_available (st : Orchestrator) : bool :=
  openaiClient st || OPENAI_API_KEY (env st).

(** ** Observations on sessions and traces *)

(** The session as iteration [k] of the playback loop tests it: after the
    handlers of the first [k] slots of the schedule have run. *)
Fixpoint session_at (k : nat) (sched : list (list Interleaved)) (s : CallSession)
  : CallSession :=
  match k with
  | O => s
  | S k' => session_at k' (tl sched) (run_slot (hd [] sched) s)
  end.

(** How often the transcription client of [cid] was disconnected. *)
Fixpoint count_disconnects (cid : string) (es : list Effect) : nat :=
  match es with
  | [] => 0
  | Call_sttDisconnect c :: rest =>
      ((if String.eqb c cid then 1 else 0) + count_disconnects cid rest)%nat
  | _ :: rest => count_disconnects cid rest
  end.

(** The statistics [endCall] returns when no session is registered. *)
Definition emptyStats : Stats :=
  {| stats_durationSec := 0; stats_creditsUsed := 0;
     stats_transcriptSummary := EmptyString |}.

(** The messages on which the listeners start a turn: a result with the
    [is_final] flag whose text is not blank. *)
Definition turn_due (m : DeepgramMessage) : bool :=
  match m with
  | Results (Some t) true _ => truthy (trim t)
  | _ => false
  end.

(** The text a result message carries. *)
Definition text_of (m : DeepgramMessage) : string :=
  match m with
  | Results (Some t) _ _ => t
  | _ => EmptyString
  end.

(** The effects of a turn: the transcript telemetry, the generation
    request and its failure, and speech. *)
Definition turn_effect (e : Effect) : bool :=
  match e with
  | Emit_userTranscript _ _ | Call_chatCompletion _ | Emit_aiError _
  | Emit_aiSpeaking _ _ | Emit_audioOutput _ _ | Emit_aiFinishedSpeaking _ => true
  | _ => false
  end.

(** The effects of [speakResponse]. *)
Definition speech_effect (e : Effect) : bool :=
  match e with
  | Emit_aiSpeaking _ _ | Emit_ttsNotConfigured _ _ | Emit_audioOutput _ _
  | Emit_ttsError _ | Emit_aiFinishedSpeaking _ => true
  | _ => false
  end.


(** A generation request carries at most ten messages. *)
Definition context_bounded (e : Effect) : Prop :=
  match e with
  | Call_chatCompletion messages => (length messages <= 10)%nat
  | _ => True
  end.

Definition nonsystem (t : Turn) : Prop := role t <> system.

(** A history that starts with the agent's system prompt and holds no
    other system turn. *)
Definition history_ok (s : CallSession) : Prop :=
  exists rest,
    conversationHistory s
    = {| role := system; content := buildSystemPrompt (agent s) |} :: rest
    /\ Forall nonsystem rest.

(** [s'] is a later state of the session object [s]: the identifying
    fields are the same, and the history and the transcript summary have
    only grown, the history by user and assistant turns. *)
Definition evolves (s s' : CallSession) : Prop :=
  callId s' = callId s /\ tenantId s' = tenantId s /\ agentId s' = agentId s
  /\ campaignId s' = campaignId s /\ agent s' = agent s
  /\ callState s' = callState s /\ startTime s' = startTime s
  /\ (exists more, conversationHistory s' = conversationHistory s ++ more
                   /\ Forall nonsystem more)
  /\ (exists more, transcriptSummary s' = transcriptSummary s ++ more).

(** [st'] is a later state of the orchestrator [st] in which no session
    was created: every registered session is a later state of the one
    registered under the same id, the environment is the same, and the
    trace has grown by effects that respect the context bound. *)
Definition advances (st st' : Orchestrator) : Prop :=
  env st' = env st
  /\ (forall cid s', activeSessions st' !! cid = Some s' ->
        exists s, activeSessions st !! cid = Some s /\ evolves s s')
  /\ (exists new, trace st' = trace st ++ new /\ Forall context_bounded new).

(** Every registered session is filed under its own id and its history
    has the shape of [history_ok]. *)
Definition sessions_ok (st : Orchestrator) : Prop :=
  forall cid s, activeSessions st !! cid = Some s -> callId s = cid /\ history_ok s.

Definition trace_bounded (st : Orchestrator) : Prop :=
  Forall context_bounded (trace st).

(** The sessions, the audio buffers and the speech queues are registered
    for the same calls. *)
Definition registries_aligned (st : Orchestrator) : Prop :=
  dom (audioBuffers st) = dom (activeSessions st)
  /\ dom (ttsQueue st) = dom (activeSessions st).

(** The call an operation is about, and whether it begins a session. *)
Definition target (op : Op) : string :=
  match op with
  | OpInitialize _ cid _ _ _ _ _ _ => cid
  | OpGreeting cid _ _ => cid
  | OpAudio _ cid _ _ => cid
  | OpSttMessage _ cid _ _ => cid
  | OpEndCall _ cid _ _ => cid
  | OpEndCallBegins _ cid _ => cid
  | OpEndCallSettles p _ => pe_callId p
  | OpLateSttMessage _ cid _ _ _ => cid
  end.

Definition is_initialize (op : Op) : bool :=
  match op with OpInitialize _ _ _ _ _ _ _ _ => true | _ => false end.

(** A deduction of credits from the call [cid] of a positive amount. *)
Definition positive_deduction (cid : string) (e : Effect) : Prop :=
  match e with
  | Emit_creditsDeducted c _ credits _ => c = cid /\ 0 < credits
  | _ => False
  end.

(** A text made of white space only. *)
Fixpoint all_space (s : string) : bool :=
  match s with
  | EmptyString => true
  | String c r => is_js_space c && all_space r
  end.

(** The contexts of the generation requests of a trace, oldest first. *)
Fixpoint requests (es : list Effect) : list (list Turn) :=
  match es with
  | [] => []
  | Call_chatCompletion messages :: rest => messages :: requests rest
  | _ :: rest => requests rest
  end.

(** A history that is the system prompt of some agent followed by user
    and assistant turns. *)
Definition prompted_history (h : list Turn) : Prop :=
  exists ag rest,
    h = {| role := system; content := buildSystemPrompt ag |} :: rest
    /\ Forall nonsystem rest.

(** [messages] is the generation context cut from the history [h]: its
    last ten entries; that is all of [h] while [h] has at most ten
    entries, and ten turns none of which is a system turn once it has
    more. *)
Definition context_of (h messages : list Turn) : Prop :=
  messages = slice_last 10 h
  /\ ((length h <= 10)%nat -> messages = h)
  /\ ((10 < length h)%nat -> Forall nonsystem messages /\ length messages = 10%nat).

Definition context_of_history (messages : list Turn) : Prop :=
  exists h, prompted_history h /\ context_of h messages.

(** [st'] follows [st] without any generation request and without a
    change to the language-model client. *)
Definition silent (st st' : Orchestrator) : Prop :=
  env st' = env st /\ openaiClient st' = openaiClient st
  /\ exists new, trace st' = trace st ++ new /\ requests new = [].

(** [st'] follows [st]: the language model is as available as it was; no
    generation request was made if it is not available; and if the
    sessions of [st] are well formed, every request made in between has a
    context cut from a prompted history. *)
Definition follows (st st' : Orchestrator) : Prop :=
  env st' = env st /\ llm_available st' = llm_available st
  /\ exists new, trace st' = trace st ++ new
       /\ (llm_available st = false -> requests new = [])
       /\ (sessions_ok st -> Forall context_of_history (requests new)).


(** The statistics [endCall] computes for the session [s] at clock [now]. *)
Definition statsOf (now : Z) (s : CallSession) : Stats :=
  {| stats_durationSec := (now - startTime s) / 1000;
     stats_creditsUsed := creditsUsed s;
     stats_transcriptSummary := join newline (transcriptSummary s) |}.


(** ** Sample data *)

Definition sampleAgent : AgentConfig :=
  {| id := "agent-X"; name := "Ava"; language := "en-US";
     instructions := "Answer questions about opening hours.";
     greeting := "Hello, how can I help?";
     fallbackMessage := "Could you please repeat that?";
     voiceId := "voice-1"; latencyMode := FAST;
     rules := {| noLegal := true; noMedical := false;
                 confirmBookings := true; handoffOnConfusion := false |} |}.

(** All three providers configured. *)
Definition fullEnv : ProcessEnv :=
  {| OPENAI_API_KEY := true; DEEPGRAM_API_KEY := true; ELEVENLABS_API_KEY := true |}.

(** A session "call-1" started at clock 0 with the transcription socket open. *)
Definition sampleLive : Orchestrator :=
  fst (initializeSession 0 "call-1" "tenant-A" "agent-X" sampleAgent None None Opens
         (newOrchestrator fullEnv)).

(** The session object of "call-1" as it was created. *)
Definition sampleSession : CallSession :=
  newSession 0 "call-1" "tenant-A" "agent-X" sampleAgent None None.

(** Two audio frames half a minute and forty seconds into the call. *)
Definition twoFrames : list MeterEvent :=
  [ElapsedTime 30000 HangupOk; ElapsedTime 40000 HangupOk].

(** A frame, a turn of 250 tokens, and a frame in the second minute. *)
Definition frameTurnFrame : list MeterEvent :=
  [ElapsedTime 30000 HangupOk;
   TurnGenerated (CompletionResolves (Some "We open at nine.") (Some 250));
   ElapsedTime 90000 HangupOk].

(** A turn that meets a completion of 250 tokens and three frames of
    speech, with no handler interleaved. *)
Definition sampleWorld : TurnWorld :=
  {| llm := CompletionResolves (Some "We open at nine.") (Some 250);
     tts := {| frames := [[1; 2]; [3; 4]; [5; 6]]; throws := false |};
     sched := [] |}.

(** A final transcript of the caller at clock [now]. *)
Definition heard (now : Z) (t : string) : Op :=
  OpSttMessage now "call-1" (Results (Some t) true true) sampleWorld.

(** A call with six turns: thirteen history entries at the end. *)
Definition longCall : list Op :=
  [OpInitialize 0 "call-1" "tenant-A" "agent-X" sampleAgent None None Opens;
   heard 1000 "Hi"; heard 2000 "Are you open?"; heard 3000 "And tomorrow?";
   heard 4000 "On Sunday?"; heard 5000 "Where are you?"; heard 6000 "Thanks"].

(** A barge-in that arrives while the loop waits for the second frame. *)
Definition bargeInAtSecond : list (list Interleaved) := [[]; [I_bargeIn]].

(** "call-1" after one audio frame half a minute into the call. *)
Definition sampleBilled : Orchestrator :=
  handleAudioInput 30000 "call-1" [128; 128] HangupOk sampleLive.

(** Further [endCall]s on the same call, each with its own clock, reason
    and telephony outcome. *)
Definition endCalls (cid : string) (calls : list (Z * string * Hangup)) : list Op :=
  map (fun c => OpEndCall (fst (fst c)) cid (snd (fst c)) (snd c)) calls.

(** The transcription provider is not configured. *)
Definition noSttEnv : ProcessEnv :=
  {| OPENAI_API_KEY := true; DEEPGRAM_API_KEY := false; ELEVENLABS_API_KEY := true |}.

(** "call-1" started at clock 0 without a transcription key: its client is
    registered and never connected. *)
Definition sampleDeaf : Orchestrator :=
  fst (initializeSession 0 "call-1" "tenant-A" "agent-X" sampleAgent None None Opens
         (newOrchestrator noSttEnv)).

(** Inbound audio frames of one call, each with its clock. *)
Definition audioFrames (cid : string) (fs : list (Z * Buffer * Hangup)) : list Op :=
  map (fun f => OpAudio (fst (fst f)) cid (snd (fst f)) (snd f)) fs.

(** Frames one second, 601 seconds and 900 seconds into the call. *)
Definition elevenMinutes : list (Z * Buffer * Hangup) :=
  [(1000, [128; 140], HangupOk); (601000, [128; 140], HangupOk);
   (900000, [128; 140], HangupOk)].

(** A result that is final as a chunk but does not end the utterance. *)
Definition finalChunk : DeepgramMessage := Results (Some "Are you open?") true false.




(** The language-model provider is not configured. *)
Definition noLlmEnv : ProcessEnv :=
  {| OPENAI_API_KEY := false; DEEPGRAM_API_KEY := true; ELEVENLABS_API_KEY := true |}.

(** A call that begins without the language-model key and hears one
    final transcript. *)
Definition unconfiguredCall : list Op :=
  [OpInitialize 0 "call-1" "tenant-A" "agent-X" sampleAgent None None Opens;
   heard 1000 "Are you open?"].

(** "call-1" while the agent speaks its greeting: the synthesis stream
    has yielded one frame and the loop is waiting for the next. *)
Definition sampleSpeaking : Orchestrator :=
  putSession "call-1" (set_isSpeaking true sampleSession) sampleLive.

(** A frame of silence and a frame that carries voice. *)
Definition quietFrame : Buffer := [128; 131; 120; 126].
Definition voicedFrame : Buffer := [200; 30; 180; 60].

(** A final transcript of two spaces and a tab. *)
Definition blankFinal : DeepgramMessage :=
  Results (Some (String (Ascii.ascii_of_nat 32)
                   (String (Ascii.ascii_of_nat 32)
                      (String (Ascii.ascii_of_nat 9) EmptyString)))) true true.

(** The session of "call-1" at the end of [longCall]. *)
Definition longSession : CallSession :=
  default sampleSession (activeSessions (run longCall (newOrchestrator fullEnv)) !! "call-1").



(** * Properties *)

(** ** Reading the state after an update *)

Lemma trace_emit e st : trace (emit e st) = trace st ++ [e].
Proof. reflexivity. Qed.

Lemma activeSessions_putSession cid s st :
  activeSessions (putSession cid s st) = <[cid := s]> (activeSessions st).
Proof. reflexivity. Qed.

Lemma ceil_div_nonneg a b : 0 <= a -> 0 < b -> 0 <= ceil_div a b.
Proof.
  intros Ha Hb. unfold ceil_div.
  assert ((- a) / b <= 0) by (apply Z.div_le_upper_bound; lia).
  lia.
Qed.

(** ** Metering *)

Lemma getOpenAI_available st :
  llm_available st = true ->
  exists st', getOpenAI st = (st', Resolved tt)
    /\ activeSessions st' = activeSessions st
    /\ sttClients st' = sttClients st
    /\ env st' = env st /\ trace st' = trace st
    /\ openaiClient st' = true.
Proof.
  unfold llm_available, getOpenAI. intros H.
  destruct (openaiClient st) eqn:Hc.
  - exists st. repeat split; auto.
  - simpl in H. rewrite H. eexists. repeat split; auto.
Qed.

Lemma getOpenAI_unavailable st :
  llm_available st = false ->
  exists err, getOpenAI st = (st, Rejected err).
Proof.
  unfold llm_available, getOpenAI. intros H.
  apply orb_false_iff in H as [-> ->]. eauto.
Qed.

Lemma endCall_begin_sessions now cid reason st :
  activeSessions (fst (endCall_begin now cid reason st)) = activeSessions st.
Proof.
  unfold endCall_begin. destruct (activeSessions st !! cid); [ | reflexivity ].
  destruct (sttClients st !! cid); reflexivity.
Qed.

(** One event moves the counter of a session that stays registered
    exactly as [metered_step] says, and keeps its start time and id. *)
Lemma meter_live cid st ev s s' :
  llm_available st = true ->
  activeSessions st !! cid = Some s ->
  callId s = cid ->
  activeSessions (meter cid st ev) !! cid = Some s' ->
  creditsUsed s' = metered_step (startTime s) (creditsUsed s) ev
  /\ startTime s' = startTime s /\ callId s' = cid.
Proof.
  intros Hav Hs Hid Hs'. destruct ev as [now hang | c]; simpl in Hs'; simpl metered_step.
  - unfold updateCallCredits in Hs'. rewrite Hs in Hs'.
    fold (minuteCredits (startTime s) now) in Hs'. cbv zeta in Hs'.
    destruct (MAX_CALL_DURATION_SEC * 1000 <=? now - startTime s);
      rewrite ?endCall_begin_sessions in Hs';
      (destruct (Z.gtb_spec (minuteCredits (startTime s) now) (creditsUsed s))
         as [Hgt | Hle];
       [ simpl in Hs'; rewrite lookup_insert_eq in Hs'; inversion Hs'; subst s';
         simpl; repeat split; auto; lia
       | rewrite Hs in Hs'; inversion Hs'; subst s'; repeat split; auto; lia ]).
  - rewrite Hs in Hs'. unfold generateResponse in Hs'.
    destruct (getOpenAI_available st Hav) as (st1 & Hg & Hact & _).
    rewrite Hg in Hs'.
    destruct c as [ | content [t | ]]; simpl in Hs'.
    + rewrite Hact, Hs in Hs'. inversion Hs'; subst s'. repeat split; auto.
      change (ceil_div (resourceUnits CompletionRejects) 100) with 0. lia.
    + rewrite lookup_insert_eq in Hs'. inversion Hs'; subst s'. simpl. auto.
    + rewrite lookup_insert_eq in Hs'. inversion Hs'; subst s'. simpl.
      repeat split; auto.
Qed.

Lemma meter_dead cid st ev :
  activeSessions st !! cid = None ->
  activeSessions (meter cid st ev) !! cid = None.
Proof.
  intros H. destruct ev; simpl.
  - unfold updateCallCredits. now rewrite H.
  - now rewrite H.
Qed.

Lemma meter_available cid st ev :
  llm_available st = true -> llm_available (meter cid st ev) = true.
Proof.
  intros Hav. destruct ev as [now hang | c]; simpl.
  - unfold updateCallCredits. destruct (activeSessions st !! cid) as [s | ]; auto.
    match goal with |- llm_available (if ?b then _ else ?x) = true =>
      assert (Hx : llm_available x = true) by (destruct (_ >? _); exact Hav);
      destruct b; [ | exact Hx]; revert Hx; generalize x as y; intros y Hx end.
    unfold endCall_begin. destruct (activeSessions y !! callId s); [ | exact Hx].
    destruct (sttClients y !! callId s); exact Hx.
  - destruct (activeSessions st !! cid) as [s | ]; auto.
    unfold generateResponse.
    destruct (getOpenAI_available st Hav) as (st1 & Hg & _ & _ & He & _ & Hc).
    rewrite Hg.
    assert (llm_available st1 = true) by (unfold llm_available; now rewrite Hc).
    destruct c as [ | content t]; exact H.
Qed.

Lemma run_meter_dead cid log st :
  activeSessions st !! cid = None ->
  activeSessions (run_meter cid log st) !! cid = None.
Proof.
  revert st. induction log as [ | ev log IH]; intros st H; simpl; auto.
  apply IH. now apply meter_dead.
Qed.

(** A session registered after a log was registered before it, and its
    counter is what [metered] computes from the log. *)
Lemma run_meter_live cid log : forall st s s',
  llm_available st = true ->
  activeSessions st !! cid = Some s ->
  callId s = cid ->
  activeSessions (run_meter cid log st) !! cid = Some s' ->
  creditsUsed s' = metered (startTime s) (creditsUsed s) log
  /\ startTime s' = startTime s /\ callId s' = cid.
Proof.
  induction log as [ | ev log IH]; intros st s s' Hav Hs Hid Hs'; simpl in *.
  - rewrite Hs in Hs'. inversion Hs'; subst. auto.
  - destruct (activeSessions (meter cid st ev) !! cid) as [s1 | ] eqn:H1.
    + destruct (meter_live _ _ _ _ _ Hav Hs Hid H1) as (Hc & Ht & Hi).
      destruct (IH _ _ _ (meter_available cid st ev Hav) H1 Hi Hs') as (Hc' & Ht' & Hi').
      unfold metered in *. simpl. rewrite <- Hc, <- Ht. rewrite Ht'. auto.
    + rewrite (run_meter_dead _ _ _ H1) in Hs'. discriminate.
Qed.

Lemma metered_step_mono start c ev :
  usage_nonneg ev -> c <= metered_step start c ev.
Proof.
  destruct ev as [now hang | k]; simpl; intros H; [lia | ].
  pose proof (ceil_div_nonneg (resourceUnits k) 100 H). lia.
Qed.

Lemma metered_app start c l1 l2 :
  metered start c (l1 ++ l2) = metered start (metered start c l1) l2.
Proof. unfold metered. apply fold_left_app. Qed.

Lemma metered_mono start log : forall c,
  Forall usage_nonneg log -> c <= metered start c log.
Proof.
  induction log as [ | ev log IH]; intros c Hnn; simpl; [lia | ].
  inversion Hnn; subst.
  etransitivity; [ apply (metered_step_mono start c ev); assumption | ].
  apply IH; assumption.
Qed.

Lemma metered_covers_time start log : forall c now hang,
  Forall usage_nonneg log ->
  In (ElapsedTime now hang) log ->
  minuteCredits start now <= metered start c log.
Proof.
  induction log as [ | ev log IH]; intros c now hang Hnn Hin; simpl in *; [tauto | ].
  inversion Hnn; subst. destruct Hin as [-> | Hin].
  - etransitivity; [ | apply metered_mono; assumption]. simpl. lia.
  - eapply IH; eauto.
Qed.

Lemma metered_lower start log : forall c,
  Forall usage_nonneg log -> c + sum_turnCredits log <= metered start c log.
Proof.
  induction log as [ | ev log IH]; intros c Hnn; [unfold metered; simpl; lia | ].
  inversion Hnn; subst. specialize (IH (metered_step start c ev) H2).
  unfold metered in *.
  destruct ev as [now hang | k];
    cbn [fold_left metered_step sum_turnCredits] in *; lia.
Qed.

Lemma metered_upper start log : forall c,
  Forall usage_nonneg log ->
  metered start c log <= Z.max c (max_minuteCredits start log) + sum_turnCredits log.
Proof.
  induction log as [ | ev log IH]; intros c Hnn; [unfold metered; simpl; lia | ].
  inversion Hnn; subst. specialize (IH (metered_step start c ev) H2).
  unfold metered in *.
  destruct ev as [now hang | k];
    cbn [fold_left metered_step sum_turnCredits max_minuteCredits usage_nonneg] in *;
    [lia | ].
  pose proof (ceil_div_nonneg (resourceUnits k) 100 H1). lia.
Qed.

(** C2, as stated, fails: after two audio frames in the first minute the
    counter is 5, while the sum over the time-based updates is 10.  The
    time-based update raises the counter to the cost of the elapsed
    minutes; it does not add that cost once more per frame. *)
Lemma metering_sum_counterexample :
  credits_of "call-1" (run_meter "call-1" twoFrames sampleLive) = Some 5
  /\ claimed_total 0 twoFrames = 10
  /\ credits_of "call-1" (run_meter "call-1" twoFrames sampleLive)
     <> Some (claimed_total (startTime (newSession 0 "call-1" "tenant-A" "agent-X"
                                           sampleAgent None None)) twoFrames).
Proof. vm_compute. repeat split; congruence. Qed.

(** The same for a log that mixes both kinds of event: the turn's 3
    credits are absorbed by the next time-based update. *)
Example metering_mixed_log :
  credits_of "call-1" (run_meter "call-1" frameTurnFrame sampleLive) = Some 10
  /\ claimed_total 0 frameTurnFrame = 18.
Proof. vm_compute. split; reflexivity. Qed.

(** C2 (amended): metering on a session that stays registered.  The
    counter never decreases from one event to a later one; at the end it is
    the value obtained by raising it to [ceil(minutes) * rate] at each
    time-based update and adding [ceil(resourceUnits / 100)] at each turn
    generation.  So it covers each time-based cost and the sum of the turn
    credits, and it is at most the largest time-based cost (or the initial
    counter) plus the turn credits. *)
Theorem metering_counter cid st s log s' :
  llm_available st = true ->
  activeSessions st !! cid = Some s ->
  callId s = cid ->
  Forall usage_nonneg log ->
  activeSessions (run_meter cid log st) !! cid = Some s' ->
  (forall l1 l2 l3, log = l1 ++ l2 ++ l3 ->
     exists c1 c2,
       credits_of cid (run_meter cid l1 st) = Some c1
       /\ credits_of cid (run_meter cid (l1 ++ l2) st) = Some c2
       /\ c1 <= c2)
  /\ creditsUsed s' = metered (startTime s) (creditsUsed s) log
  /\ (forall now hang, In (ElapsedTime now hang) log ->
        minuteCredits (startTime s) now <= creditsUsed s')
  /\ creditsUsed s + sum_turnCredits log <= creditsUsed s'
  /\ creditsUsed s'
     <= Z.max (creditsUsed s) (max_minuteCredits (startTime s) log) + sum_turnCredits log.
Proof.
  intros Hav Hs Hid Hnn Hs'.
  destruct (run_meter_live cid log st s s' Hav Hs Hid Hs') as (Hc & Ht & Hi).
  split; [ | rewrite Hc; repeat split].
  - intros l1 l2 l3 ->.
    assert (Hlive : forall l l', activeSessions (run_meter cid (l ++ l') st) !! cid = Some s' ->
              exists s1, activeSessions (run_meter cid l st) !! cid = Some s1).
    { intros l l' H. unfold run_meter in H. rewrite fold_left_app in H.
      fold (run_meter cid l st) in H.
      destruct (activeSessions (run_meter cid l st) !! cid) as [s1 | ] eqn:E; eauto.
      fold (run_meter cid l' (run_meter cid l st)) in H.
      rewrite (run_meter_dead _ _ _ E) in H. discriminate. }
    destruct (Hlive l1 (l2 ++ l3) Hs') as (s1 & H1).
    rewrite app_assoc in Hs'. destruct (Hlive (l1 ++ l2) l3 Hs') as (s2 & H2).
    destruct (run_meter_live cid l1 st s s1 Hav Hs Hid H1) as (Hc1 & _).
    destruct (run_meter_live cid (l1 ++ l2) st s s2 Hav Hs Hid H2) as (Hc2 & _).
    exists (creditsUsed s1), (creditsUsed s2). unfold credits_of.
    rewrite H1, H2. repeat split. rewrite Hc1, Hc2, metered_app.
    apply metered_mono. apply Forall_app in Hnn as [_ Hnn].
    apply Forall_app in Hnn as [Hnn _]. exact Hnn.
  - intros now hang Hin. eapply metered_covers_time; eauto.
  - now apply metered_lower.
  - now apply metered_upper.
Qed.

Lemma metering_counter_witness :
  exists s', activeSessions (run_meter "call-1" frameTurnFrame sampleLive) !! "call-1" = Some s'
    /\ creditsUsed s'
       = metered (startTime sampleSession) (creditsUsed sampleSession) frameTurnFrame
    /\ creditsUsed s' = 10.
Proof.
  eexists. split; [ vm_compute; reflexivity | ]. split; [ | reflexivity ].
  refine (proj1 (proj2
    (metering_counter "call-1" sampleLive sampleSession frameTurnFrame _ _ _ _ _ _))).
  - reflexivity.
  - vm_compute. reflexivity.
  - reflexivity.
  - repeat constructor; simpl; lia.
  - vm_compute. reflexivity.
Defined.

(** ** Sessions and states over time *)

Lemma evolves_refl s : evolves s s.
Proof.
  unfold evolves. repeat split; exists []; rewrite app_nil_r; auto.
Qed.

Lemma evolves_trans s1 s2 s3 : evolves s1 s2 -> evolves s2 s3 -> evolves s1 s3.
Proof.
  intros (a1 & a2 & a3 & a4 & a5 & a6 & a7 & (m1 & h1 & f1) & (n1 & t1))
         (b1 & b2 & b3 & b4 & b5 & b6 & b7 & (m2 & h2 & f2) & (n2 & t2)).
  unfold evolves. repeat split; try congruence.
  - exists (m1 ++ m2). rewrite h2, h1, app_assoc. split; auto.
    apply Forall_app; auto.
  - exists (n1 ++ n2). rewrite t2, t1, app_assoc. auto.
Qed.

Lemma evolves_field_update s s' :
  callId s' = callId s -> tenantId s' = tenantId s -> agentId s' = agentId s ->
  campaignId s' = campaignId s -> agent s' = agent s ->
  callState s' = callState s -> startTime s' = startTime s ->
  conversationHistory s' = conversationHistory s ->
  transcriptSummary s' = transcriptSummary s ->
  evolves s s'.
Proof.
  intros. unfold evolves. repeat split; auto; exists []; rewrite app_nil_r; auto.
Qed.

Lemma evolves_push_history t s : nonsystem t -> evolves s (push_history t s).
Proof.
  intros Ht. unfold evolves. simpl. repeat split; auto.
  - exists [t]. auto.
  - exists []. rewrite app_nil_r. auto.
Qed.

Lemma evolves_push_summary line s : evolves s (push_summary line s).
Proof.
  unfold evolves. simpl. repeat split; auto.
  - exists []. rewrite app_nil_r. auto.
  - exists [line]. auto.
Qed.

Lemma nonsystem_user t : nonsystem {| role := user; content := t |}.
Proof. unfold nonsystem. simpl. discriminate. Qed.

Lemma nonsystem_assistant t : nonsystem {| role := assistant; content := t |}.
Proof. unfold nonsystem. simpl. discriminate. Qed.

Create HintDb orch.
#[local] Hint Resolve evolves_refl evolves_push_summary nonsystem_user
  nonsystem_assistant : orch.
#[local] Hint Extern 1 (evolves _ (push_history _ _)) =>
  apply evolves_push_history : orch.
#[local] Hint Extern 2 (evolves _ _) =>
  apply evolves_field_update; reflexivity : orch.

Lemma evolves_run_interleaved i s : evolves s (run_interleaved i s).
Proof. destruct i; simpl; eauto with orch. Qed.

Lemma evolves_run_slot slot s : evolves s (run_slot slot s).
Proof.
  unfold run_slot. revert s. induction slot as [ | i slot IH]; intros s; simpl.
  - apply evolves_refl.
  - eapply evolves_trans; [ apply evolves_run_interleaved | apply IH ].
Qed.

Lemma evolves_history_ok s s' : evolves s s' -> history_ok s -> history_ok s'.
Proof.
  intros (_ & _ & _ & _ & Ha & _ & _ & (more & Hh & Hf) & _) (rest & Hr & Hrest).
  exists (rest ++ more). rewrite Hh, Hr, Ha. split; auto.
  apply Forall_app; auto.
Qed.

Lemma advances_refl st : advances st st.
Proof.
  unfold advances. repeat split; eauto with orch.
  exists []. rewrite app_nil_r. auto.
Qed.

Lemma advances_trans st1 st2 st3 : advances st1 st2 -> advances st2 st3 -> advances st1 st3.
Proof.
  intros (e1 & s1 & (n1 & t1 & f1)) (e2 & s2 & (n2 & t2 & f2)).
  unfold advances. repeat split; try congruence.
  - intros cid s3 H3. destruct (s2 _ _ H3) as (sb & Hb & Hev2).
    destruct (s1 _ _ Hb) as (sa & Ha & Hev1).
    exists sa. split; auto. eapply evolves_trans; eauto.
  - exists (n1 ++ n2). rewrite t2, t1, app_assoc. split; auto.
    apply Forall_app; auto.
Qed.

Lemma advances_same st st' :
  env st' = env st -> activeSessions st' = activeSessions st ->
  trace st' = trace st -> advances st st'.
Proof.
  intros He Hs Ht. unfold advances. rewrite He, Hs, Ht. repeat split.
  - intros cid s' H. eauto with orch.
  - exists []. rewrite app_nil_r. auto.
Qed.

Lemma advances_emit e st : context_bounded e -> advances st (emit e st).
Proof.
  intros He. unfold advances. simpl. repeat split.
  - intros cid s' H. eauto with orch.
  - exists [e]. auto.
Qed.

Lemma advances_emit_all es st : Forall context_bounded es -> advances st (emit_all es st).
Proof.
  intros He. unfold advances. simpl. repeat split.
  - intros cid s' H. eauto with orch.
  - exists es. auto.
Qed.

Lemma advances_putSession cid s s' st :
  activeSessions st !! cid = Some s -> evolves s s' ->
  advances st (putSession cid s' st).
Proof.
  intros Hs Hev. unfold advances. simpl. repeat split.
  - intros c x Hx. destruct (decide (c = cid)) as [-> | Hne].
    + rewrite lookup_insert_eq in Hx. inversion Hx; subst. eauto.
    + rewrite lookup_insert_ne in Hx by congruence. eauto with orch.
  - exists []. rewrite app_nil_r. auto.
Qed.

Lemma advances_unregister cid st :
  advances st (set_activeSessions (delete cid (activeSessions st)) st).
Proof.
  unfold advances. simpl. repeat split.
  - intros c x Hx. destruct (decide (c = cid)) as [-> | Hne].
    + rewrite lookup_delete_eq in Hx. discriminate.
    + rewrite lookup_delete_ne in Hx by congruence. eauto with orch.
  - exists []. rewrite app_nil_r. auto.
Qed.

(** A trace that has grown by the given effects. *)
Ltac trace_grows :=
  eexists; simpl; rewrite <- ?app_assoc; simpl; split;
  [ first [ reflexivity | symmetry; apply app_nil_r ]
  | repeat constructor ].

Ltac find_session :=
  simpl; first [ eassumption | apply lookup_insert_eq ].

(** Peels the updates of a state off from the outside. *)
Ltac adv :=
  lazymatch goal with
  | |- advances ?a ?a => apply advances_refl
  | |- advances ?a (emit ?e ?x) =>
      apply (advances_trans a x);
      [ adv | apply advances_emit; first [ exact I | assumption ] ]
  | |- advances ?a (emit_all ?es ?x) =>
      apply (advances_trans a x);
      [ adv | apply advances_emit_all; assumption ]
  | |- advances ?a (putSession ?c ?s ?x) =>
      apply (advances_trans a x);
      [ adv | eapply advances_putSession; [ find_session | eauto with orch ] ]
  | |- advances ?a (set_ttsQueue ?m ?x) =>
      apply (advances_trans a x); [ adv | apply advances_same; reflexivity ]
  | |- advances ?a (set_sttClients ?m ?x) =>
      apply (advances_trans a x); [ adv | apply advances_same; reflexivity ]
  | |- advances ?a (set_audioBuffers ?m ?x) =>
      apply (advances_trans a x); [ adv | apply advances_same; reflexivity ]
  | |- advances ?a (set_openaiClient ?m ?x) =>
      apply (advances_trans a x); [ adv | apply advances_same; reflexivity ]
  | |- advances ?a (set_activeSessions (delete ?c _) ?x) =>
      apply (advances_trans a x); [ adv | apply advances_unregister ]
  | |- _ => idtac
  end.

Lemma advances_endCall now cid reason hang st :
  advances st (fst (endCall now cid reason hang st)).
Proof.
  unfold endCall. destruct (activeSessions st !! cid) as [session | ] eqn:Hs;
    [ | apply advances_refl ].
  destruct (sttClients st !! cid); cbv zeta; unfold fst; adv.
Qed.

Lemma advances_endCall_begin now cid reason st :
  advances st (fst (endCall_begin now cid reason st)).
Proof.
  unfold endCall_begin. destruct (activeSessions st !! cid) as [session | ] eqn:Hs;
    [ | apply advances_refl ].
  destruct (sttClients st !! cid); cbv zeta; unfold fst; adv.
Qed.

Lemma advances_endCall_finish p hang st :
  advances st (fst (endCall_finish p hang st)).
Proof. unfold endCall_finish. cbv zeta. unfold fst. adv. Qed.

Lemma advances_updateCallCredits now cid hang st :
  advances st (updateCallCredits now cid hang st).
Proof.
  unfold updateCallCredits.
  destruct (activeSessions st !! cid) as [session | ] eqn:Hs; [ | apply advances_refl ].
  cbv zeta.
  match goal with
  | |- advances _ (if _ then fst (endCall_begin _ _ _ ?x) else _) =>
      assert (H1 : advances st x)
  end.
  { destruct (_ >? _); adv. }
  destruct (_ <=? _); [ | exact H1 ].
  eapply advances_trans; [ exact H1 | apply advances_endCall_begin ].
Qed.

Lemma advances_handleBargeIn cid st : advances st (handleBargeIn cid st).
Proof.
  unfold handleBargeIn.
  destruct (activeSessions st !! cid) as [session | ] eqn:Hs; cbv zeta; adv.
Qed.

Lemma advances_checkSilence now cid st : advances st (checkSilence now cid st).
Proof.
  unfold checkSilence.
  destruct (activeSessions st !! cid) as [session | ] eqn:Hs; [ | apply advances_refl ].
  destruct (silenceStart session); [ | apply advances_refl ].
  destruct (_ && _); adv.
Qed.

Lemma advances_handleAudioInput now cid audio hang st :
  advances st (handleAudioInput now cid audio hang st).
Proof.
  unfold handleAudioInput.
  destruct (activeSessions st !! cid) as [session | ] eqn:Hs; [ | apply advances_refl ].
  destruct (sttClients st !! cid) as [stt | ]; [ | apply advances_refl ].
  destruct (negb (connected stt)); [ apply advances_refl | ].
  cbv zeta.
  eapply advances_trans; [ | apply advances_updateCallCredits ].
  eapply advances_trans; [ | apply advances_checkSilence ].
  destruct (_ && _); adv;
    (destruct (isSpeaking session); [ | apply advances_refl ];
     destruct (detectVoiceActivity audio);
     [ apply advances_handleBargeIn | apply advances_refl ]).
Qed.

Lemma slice_last_length {A} n (l : list A) : (length (slice_last n l) <= n)%nat.
Proof. unfold slice_last. rewrite length_drop. lia. Qed.

Lemma advances_generateResponse cid session c st :
  activeSessions st !! cid = Some session ->
  advances st (fst (generateResponse cid session c st)).
Proof.
  intros Hs. unfold generateResponse, getOpenAI.
  assert (Hb : context_bounded
                 (Call_chatCompletion (slice_last 10 (conversationHistory session))))
    by apply slice_last_length.
  destruct (openaiClient st); [ | destruct (OPENAI_API_KEY (env st)) ];
    cbv zeta; try destruct c; unfold fst; adv.
Qed.

Lemma playback_evolves cid chunks thr sched s :
  evolves s (fst (playback cid chunks thr sched s))
  /\ Forall context_bounded (snd (playback cid chunks thr sched s)).
Proof.
  revert sched s. induction chunks as [ | chunk rest IH]; intros sched s; simpl.
  - split; [ apply evolves_run_slot | destruct thr; repeat constructor ].
  - destruct (negb (isSpeaking (run_slot (hd [] sched) s))).
    + split; [ apply evolves_run_slot | constructor ].
    + specialize (IH (tl sched) (run_slot (hd [] sched) s)).
      destruct (playback cid rest thr (tl sched) (run_slot (hd [] sched) s)) as [s' es].
      simpl in *. destruct IH as [IH1 IH2]. split.
      * eapply evolves_trans; [ apply evolves_run_slot | exact IH1 ].
      * constructor; [ exact I | exact IH2 ].
Qed.

Lemma evolves_set_isSpeaking b b' s s' :
  evolves s s' -> evolves (set_isSpeaking b s) (set_isSpeaking b' s').
Proof.
  intros H. eapply evolves_trans; [ | eapply evolves_trans; [ exact H | ] ];
    eauto with orch.
Qed.

Lemma advances_speakResponse cid text stream sched st :
  advances st (speakResponse cid text stream sched st).
Proof.
  unfold speakResponse.
  destruct (activeSessions st !! cid) as [session | ] eqn:Hs; [ | apply advances_refl ].
  cbv zeta. destruct (negb _).
  - adv.
  - pose proof (playback_evolves cid (frames stream) (throws stream) sched
                  (set_isSpeaking true session)) as [Hev Hes].
    destruct (playback cid (frames stream) (throws stream) sched
                (set_isSpeaking true session)) as [s' es].
    simpl in Hev, Hes. adv.
Qed.

Lemma advances_lookup st st' cid s :
  advances st st' -> activeSessions st' !! cid = Some s ->
  exists s0, activeSessions st !! cid = Some s0 /\ evolves s0 s.
Proof. intros (_ & H & _) Hs. eauto. Qed.

Lemma advances_processUserInput cid userText w st :
  advances st (processUserInput cid userText w st).
Proof.
  unfold processUserInput.
  destruct (activeSessions st !! cid) as [session | ] eqn:Hs; [ | apply advances_refl ].
  cbv zeta.
  set (s1 := push_history {| role := user; content := userText |} session).
  assert (H1 : advances st (putSession cid s1 st)) by (subst s1; adv).
  assert (H2 : advances (putSession cid s1 st)
                 (fst (generateResponse cid s1 (llm w) (putSession cid s1 st)))).
  { apply advances_generateResponse. simpl. apply lookup_insert_eq. }
  destruct (generateResponse cid s1 (llm w) (putSession cid s1 st)) as [st2 response].
  simpl in H2. pose proof (advances_trans _ _ _ H1 H2) as H12.
  destruct (negb (truthy response)); [ exact H12 | ].
  destruct (activeSessions st2 !! cid) as [s2 | ] eqn:Hs2; [ | exact H12 ].
  eapply advances_trans; [ exact H12 | ].
  eapply advances_trans; [ | apply advances_speakResponse ].
  adv. eapply evolves_trans; [ apply evolves_push_history | ]; eauto with orch.
Qed.

Lemma advances_sendGreeting cid stream sched st :
  advances st (sendGreeting cid stream sched st).
Proof.
  unfold sendGreeting.
  destruct (activeSessions st !! cid) as [session | ] eqn:Hs; [ | apply advances_refl ].
  cbv zeta. eapply advances_trans; [ | apply advances_speakResponse ].
  adv. eapply evolves_trans; [ apply evolves_push_history | ]; eauto with orch.
Qed.

Lemma advances_onSttEvent now cid ev w st :
  advances st (onSttEvent now cid ev w st).
Proof.
  destruct ev; simpl; try apply advances_refl.
  - destruct (activeSessions st !! cid) as [session | ] eqn:Hs; destruct (negb _); adv.
  - destruct (activeSessions st !! cid) as [session | ] eqn:Hs;
      (destruct (negb _); [ apply advances_refl | ];
       eapply advances_trans; [ | apply advances_processUserInput ]; adv).
  - destruct (activeSessions st !! cid) as [session | ] eqn:Hs; adv.
  - adv.
Qed.

Lemma advances_sttMessage now cid m w st :
  advances st (sttMessage now cid m w st).
Proof.
  unfold sttMessage. destruct (sttClients st !! cid) as [stt | ]; [ | apply advances_refl ].
  destruct (ws stt); [ | apply advances_refl ].
  generalize (handleMessage m). intros evs. revert st.
  induction evs as [ | ev evs IH]; intros st; simpl.
  - apply advances_refl.
  - eapply advances_trans; [ apply advances_onSttEvent | apply IH ].
Qed.

Lemma advances_onDetachedSttEvent now cid ev w st :
  advances st (onDetachedSttEvent now cid ev w st).
Proof.
  destruct ev; simpl; try apply advances_refl.
  - destruct (negb _); adv.
  - destruct (negb _); [ apply advances_refl | ].
    eapply advances_trans; [ | apply advances_processUserInput ]. adv.
  - adv.
Qed.

Lemma advances_lateSttMessage now cid m w own st :
  advances st (lateSttMessage now cid m w own st).
Proof.
  unfold lateSttMessage. generalize (handleMessage m). intros evs. revert st.
  induction evs as [ | ev evs IH]; intros st; simpl.
  - apply advances_refl.
  - eapply advances_trans; [ | apply IH ].
    destruct own; [ apply advances_onSttEvent | apply advances_onDetachedSttEvent ].
Qed.

(** ** Session creation *)

Lemma initializeSession_registry now cid tid aid ag camp known conn st :
  let st' := fst (initializeSession now cid tid aid ag camp known conn st) in
  activeSessions st' = <[cid := newSession now cid tid aid ag camp known]> (activeSessions st)
  /\ env st' = env st
  /\ openaiClient st' = openaiClient st
  /\ exists new, trace st' = trace st ++ new /\ Forall context_bounded new.
Proof.
  unfold initializeSession. cbv zeta. simpl.
  destruct (DEEPGRAM_API_KEY (env st)); [ destruct conn | ]; simpl;
    repeat split; trace_grows.
Qed.

Lemma initializeSession_outcome now cid tid aid ag camp known conn st :
  snd (initializeSession now cid tid aid ag camp known conn st)
  = if DEEPGRAM_API_KEY (env st) then
      match conn with
      | Opens => Resolved (newSession now cid tid aid ag camp known)
      | Errors => Rejected "socket error"
      end
    else Resolved (newSession now cid tid aid ag camp known).
Proof.
  unfold initializeSession. cbv zeta. simpl.
  destruct (DEEPGRAM_API_KEY (env st)); [ destruct conn | ]; reflexivity.
Qed.

Lemma history_ok_newSession now cid tid aid ag camp known :
  history_ok (newSession now cid tid aid ag camp known).
Proof. exists []. split; [ reflexivity | constructor ]. Qed.

(** ** Invariants of runs *)

Lemma advances_step st op :
  match op with
  | OpInitialize _ _ _ _ _ _ _ _ => True
  | _ => advances st (step st op)
  end.
Proof.
  destruct op; simpl; auto.
  - apply advances_sendGreeting.
  - apply advances_handleAudioInput.
  - apply advances_sttMessage.
  - apply advances_endCall.
  - apply advances_endCall_begin.
  - exact (advances_endCall_finish p hang st).
  - apply advances_lateSttMessage.
Qed.

Lemma advances_sessions_ok st st' : advances st st' -> sessions_ok st -> sessions_ok st'.
Proof.
  intros (_ & Hs & _) Hok cid s' H'. destruct (Hs _ _ H') as (s & H & Hev).
  destruct (Hok _ _ H) as [Hid Hh]. split.
  - destruct Hev as (Hc & _). congruence.
  - eapply evolves_history_ok; eauto.
Qed.

Lemma advances_trace_bounded st st' : advances st st' -> trace_bounded st -> trace_bounded st'.
Proof.
  intros (_ & _ & (new & Ht & Hn)) Hb. unfold trace_bounded. rewrite Ht.
  apply Forall_app; auto.
Qed.

Lemma step_sessions_ok st op : sessions_ok st -> sessions_ok (step st op).
Proof.
  intros Hok. pose proof (advances_step st op) as Hadv.
  destruct op; try (eapply advances_sessions_ok; eauto; fail).
  simpl. intros c s Hs.
  destruct (initializeSession_registry now callId0 tenantId0 agentId0 agent0
              campaignId0 known conn st) as (Hreg & _).
  rewrite Hreg in Hs. destruct (decide (c = callId0)) as [-> | Hne].
  - rewrite lookup_insert_eq in Hs. inversion Hs; subst. split; [ reflexivity | ].
    apply history_ok_newSession.
  - rewrite lookup_insert_ne in Hs by congruence. auto.
Qed.

Lemma step_trace_bounded st op : trace_bounded st -> trace_bounded (step st op).
Proof.
  intros Hb. pose proof (advances_step st op) as Hadv.
  destruct op; try (eapply advances_trace_bounded; eauto; fail).
  simpl.
  destruct (initializeSession_registry now callId0 tenantId0 agentId0 agent0
              campaignId0 known conn st) as (_ & _ & _ & (new & Ht & Hn)).
  unfold trace_bounded. rewrite Ht. apply Forall_app; auto.
Qed.

Lemma run_sessions_ok ops st : sessions_ok st -> sessions_ok (run ops st).
Proof.
  unfold run. revert st. induction ops as [ | op ops IH]; intros st H; simpl; auto.
  apply IH. apply step_sessions_ok. exact H.
Qed.

Lemma run_trace_bounded ops st : trace_bounded st -> trace_bounded (run ops st).
Proof.
  unfold run. revert st. induction ops as [ | op ops IH]; intros st H; simpl; auto.
  apply IH. apply step_trace_bounded. exact H.
Qed.

Lemma sessions_ok_new e : sessions_ok (newOrchestrator e).
Proof. intros cid s H. simpl in H. rewrite lookup_empty in H. discriminate. Qed.

(** ** Turns *)

Lemma speakResponse_session cid text stream sched st s :
  activeSessions st !! cid = Some s ->
  exists s', activeSessions (speakResponse cid text stream sched st) !! cid = Some s'
    /\ evolves s s' /\ isSpeaking s' = false.
Proof.
  intros Hs. unfold speakResponse. rewrite Hs. cbv zeta. destruct (negb _).
  - eexists. split; [ simpl; apply lookup_insert_eq | ]. split; eauto with orch.
  - pose proof (playback_evolves cid (frames stream) (throws stream) sched
                  (set_isSpeaking true s)) as [Hev _].
    destruct (playback cid (frames stream) (throws stream) sched
                (set_isSpeaking true s)) as [s' es].
    simpl in Hev. eexists. split; [ simpl; apply lookup_insert_eq | ].
    split; [ | reflexivity ].
    eapply evolves_trans; [ | eapply evolves_trans; [ exact Hev | ] ]; eauto with orch.
Qed.

(** What [generateResponse] leaves registered: the session it was given,
    with more credits when the completion resolved. *)
Lemma generateResponse_session cid session c st :
  activeSessions st !! cid = Some session ->
  exists k, activeSessions (fst (generateResponse cid session c st)) !! cid
            = Some (set_creditsUsed k session).
Proof.
  intros Hs. unfold generateResponse, getOpenAI.
  assert (Hsame : set_creditsUsed (creditsUsed session) session = session)
    by (destruct session; reflexivity).
  destruct (openaiClient st); [ | destruct (OPENAI_API_KEY (env st)) ];
    cbv zeta; try destruct c; simpl;
    try (exists (creditsUsed session); rewrite Hsame; exact Hs);
    eexists; apply lookup_insert_eq.
Qed.


Lemma processUserInput_session cid userText w st s :
  activeSessions st !! cid = Some s ->
  exists s' rest,
    activeSessions (processUserInput cid userText w st) !! cid = Some s'
    /\ conversationHistory s'
       = conversationHistory s ++ {| role := user; content := userText |} :: rest
    /\ Forall nonsystem rest.
Proof.
  intros Hs. unfold processUserInput. rewrite Hs. cbv zeta.
  set (s1 := push_history {| role := user; content := userText |} s).
  assert (H1 : activeSessions (putSession cid s1 st) !! cid = Some s1)
    by (simpl; apply lookup_insert_eq).
  destruct (generateResponse_session cid s1 (llm w) _ H1) as (k & H2).
  destruct (generateResponse cid s1 (llm w) (putSession cid s1 st)) as [st2 response].
  simpl in H2. destruct (negb (truthy response)).
  - exists (set_creditsUsed k s1), []. repeat split; auto.
  - rewrite H2.
    match goal with
    | |- context [speakResponse cid response (tts w) (sched w) (putSession cid ?x st2)] =>
        destruct (speakResponse_session cid response (tts w) (sched w)
                    (putSession cid x st2) x) as (s' & Hs' & Hev & _);
        [ simpl; apply lookup_insert_eq | ]
    end.
    destruct Hev as (_ & _ & _ & _ & _ & _ & _ & (more & Hh & Hf) & _).
    exists s', ({| role := assistant; content := response |} :: more).
    split; [ exact Hs' | ]. split.
    + rewrite Hh. subst s1. simpl. rewrite <- !app_assoc. reflexivity.
    + constructor; [ apply nonsystem_assistant | exact Hf ].
Qed.

(** C7: every generation request of every run carries at most ten
    messages, however long the history has grown; and a turn only adds to
    the stored history, which keeps all the older turns. *)
Theorem history_window_bound :
  (forall ops e, Forall context_bounded (trace (run ops (newOrchestrator e))))
  /\ (forall cid session completion st,
        llm_available st = true ->
        exists new,
          trace (fst (generateResponse cid session completion st))
          = trace st ++ Call_chatCompletion
                          (slice_last 10 (conversationHistory session)) :: new
          /\ (length (slice_last 10 (conversationHistory session)) <= 10)%nat)
  /\ (forall cid userText w st s,
        activeSessions st !! cid = Some s ->
        exists s' rest,
          activeSessions (processUserInput cid userText w st) !! cid = Some s'
          /\ conversationHistory s'
             = conversationHistory s ++ {| role := user; content := userText |} :: rest).
Proof.
  split; [ | split ].
  - intros ops e. apply (run_trace_bounded ops (newOrchestrator e)). constructor.
  - intros cid session c st Hav.
    destruct (getOpenAI_available st Hav) as (st1 & Hg & _ & _ & _ & Ht & _).
    unfold generateResponse. rewrite Hg. cbv zeta.
    destruct c; simpl; rewrite Ht; eexists;
      (split; [ rewrite <- ?app_assoc; reflexivity | apply slice_last_length ]).
  - intros cid userText w st s Hs.
    destruct (processUserInput_session cid userText w st s Hs) as (s' & rest & H1 & H2 & _).
    eauto.
Qed.

Lemma history_window_bound_witness :
  (exists new,
     trace (fst (generateResponse "call-1" sampleSession (llm sampleWorld) sampleLive))
     = trace sampleLive
       ++ Call_chatCompletion (slice_last 10 (conversationHistory sampleSession)) :: new
     /\ (length (slice_last 10 (conversationHistory sampleSession)) <= 10)%nat)
  /\ (exists s' rest,
        activeSessions (processUserInput "call-1" "Are you open?" sampleWorld sampleLive)
          !! "call-1" = Some s'
        /\ conversationHistory s'
           = conversationHistory sampleSession
             ++ {| role := user; content := "Are you open?" |} :: rest).
Proof.
  split.
  - apply (proj1 (proj2 history_window_bound)
             "call-1" sampleSession (llm sampleWorld) sampleLive).
    reflexivity.
  - apply (proj2 (proj2 history_window_bound)
             "call-1" "Are you open?" sampleWorld sampleLive sampleSession).
    vm_compute. reflexivity.
Defined.

Lemma generateResponse_trace cid session c st :
  exists new,
    trace (fst (generateResponse cid session c st)) = trace st ++ new
    /\ Forall (fun e => e = Emit_aiError (callId session)
                        \/ e = Call_chatCompletion
                                 (slice_last 10 (conversationHistory session))) new.
Proof.
  unfold generateResponse, getOpenAI.
  destruct (openaiClient st); [ | destruct (OPENAI_API_KEY (env st)) ];
    cbv zeta; try destruct c; simpl;
    eexists; rewrite <- ?app_assoc; (split; [ reflexivity | ]);
    simpl;
    repeat (constructor; [ first [ left; reflexivity | right; reflexivity ] | ]);
    constructor.
Qed.

Lemma slice_last_short {A} n (l : list A) : (length l <= n)%nat -> slice_last n l = l.
Proof.
  intros H. unfold slice_last. replace (length l - n)%nat with 0%nat by lia. reflexivity.
Qed.

Lemma slice_last_drops_head {A} (P : A -> Prop) n a (l : list A) :
  (n < length (a :: l))%nat -> Forall P l -> Forall P (slice_last n (a :: l)).
Proof.
  intros H Hl. unfold slice_last.
  destruct (length (a :: l) - n)%nat as [ | k] eqn:E; [ lia | ].
  simpl. apply Forall_drop. exact Hl.
Qed.

(** ** Barge-in *)

(** The loop stops at the first iteration that finds the flag cleared:
    when iteration [k] would find it cleared, fewer than [k] frames have
    been forwarded, in order, and nothing else was emitted. *)
Lemma playback_barge_in cid chunks thr sched s k :
  (0 < k <= length chunks)%nat ->
  isSpeaking (session_at k sched s) = false ->
  exists n, (n < k)%nat
    /\ snd (playback cid chunks thr sched s) = map (Emit_audioOutput cid) (take n chunks).
Proof.
  revert sched s k. induction chunks as [ | chunk rest IH]; intros sched s k Hk Hflag.
  - simpl in Hk. lia.
  - destruct k as [ | k]; [ lia | ]. simpl in Hflag. simpl.
    destruct (isSpeaking (run_slot (hd [] sched) s)) eqn:Hsp; simpl.
    + destruct k as [ | k].
      * simpl in Hflag. congruence.
      * destruct (IH (tl sched) (run_slot (hd [] sched) s) (S k)) as (n & Hn & Hes).
        { simpl in Hk. lia. }
        { exact Hflag. }
        destruct (playback cid rest thr (tl sched) (run_slot (hd [] sched) s)) as [s' es].
        simpl in *. exists (S n). split; [ lia | ]. simpl. congruence.
    + exists 0%nat. split; [ lia | reflexivity ].
Qed.

(** C1: when the session's [isSpeaking] flag is found cleared by the
    iteration of the playback loop that would forward frame [k], for
    [0 < k <= N], [speakResponse] has forwarded fewer than [k] frames (so
    at most [k]): its whole output is the "aiSpeaking" event, the first
    [n < k] frames in order, and "aiFinishedSpeaking"; no frame follows
    the iteration that observed the cleared flag. *)
Theorem barge_in_latency_bound cid text stream sched st session k :
  activeSessions st !! cid = Some session ->
  ELEVENLABS_API_KEY (env st) = true ->
  (0 < k <= length (frames stream))%nat ->
  isSpeaking (session_at k sched (set_isSpeaking true session)) = false ->
  exists n, (n < k)%nat
    /\ trace (speakResponse cid text stream sched st)
       = trace st
         ++ Emit_aiSpeaking cid text
            :: map (Emit_audioOutput cid) (take n (frames stream))
            ++ [Emit_aiFinishedSpeaking cid].
Proof.
  intros Hs Hkey Hk Hflag.
  destruct (playback_barge_in cid (frames stream) (throws stream) sched
              (set_isSpeaking true session) k Hk Hflag) as (n & Hn & Hes).
  exists n. split; [ exact Hn | ].
  unfold speakResponse. rewrite Hs. cbv zeta. simpl env. rewrite Hkey. simpl negb. cbv iota.
  destruct (playback cid (frames stream) (throws stream) sched
              (set_isSpeaking true session)) as [s' es].
  simpl in Hes. subst es. simpl. rewrite <- !app_assoc. reflexivity.
Qed.

Lemma barge_in_latency_bound_witness :
  exists n, (n < 2)%nat
    /\ trace (speakResponse "call-1" "We open at nine." (tts sampleWorld)
                bargeInAtSecond sampleLive)
       = trace sampleLive
         ++ Emit_aiSpeaking "call-1" "We open at nine."
            :: map (Emit_audioOutput "call-1") (take n (frames (tts sampleWorld)))
            ++ [Emit_aiFinishedSpeaking "call-1"].
Proof.
  apply (barge_in_latency_bound "call-1" "We open at nine." (tts sampleWorld)
           bargeInAtSecond sampleLive sampleSession 2).
  - vm_compute. reflexivity.
  - reflexivity.
  - simpl. lia.
  - reflexivity.
Defined.

(** ** Termination *)

Lemma count_disconnects_app cid es1 es2 :
  count_disconnects cid (es1 ++ es2)
  = (count_disconnects cid es1 + count_disconnects cid es2)%nat.
Proof.
  induction es1 as [ | e es1 IH]; simpl; auto.
  destruct e; auto. rewrite IH. lia.
Qed.

Lemma endCall_unregisters now cid reason hang st :
  activeSessions (fst (endCall now cid reason hang st)) !! cid = None.
Proof.
  unfold endCall. destruct (activeSessions st !! cid) as [session | ] eqn:Hs; simpl; auto.
  destruct (sttClients st !! cid); simpl; apply lookup_delete_eq.
Qed.

Lemma endCall_unregistered now cid reason hang st :
  activeSessions st !! cid = None ->
  endCall now cid reason hang st = (st, emptyStats).
Proof. intros H. unfold endCall. rewrite H. reflexivity. Qed.

(** C3, as stated, fails: the second [endCall] on a call does not return
    the statistics of the first but the empty statistics.  Here the call
    is ended 65 seconds after it began, with 5 credits used. *)
Lemma endCall_twice_counterexample :
  let first := endCall 65000 "call-1" "completed" HangupOk sampleBilled in
  let second := endCall 65000 "call-1" "completed" HangupOk (fst first) in
  snd first = {| stats_durationSec := 65; stats_creditsUsed := 5;
                 stats_transcriptSummary := EmptyString |}
  /\ snd second = {| stats_durationSec := 0; stats_creditsUsed := 0;
                     stats_transcriptSummary := EmptyString |}
  /\ snd first <> snd second.
Proof. vm_compute. repeat split; congruence. Qed.

Lemma endCall_begin_registered now cid reason st s :
  activeSessions st !! cid = Some s ->
  endCall_begin now cid reason st
  = (emit (Call_signalwireEndCall cid)
       match sttClients st !! cid with
       | Some _ => set_sttClients (delete cid (sttClients st))
                     (emit (Call_sttDisconnect cid) st)
       | None => st
       end,
     Some {| pe_callId := cid; pe_session := s;
             pe_durationSec := (now - startTime s) / 1000;
             pe_transcriptSummary := join newline (transcriptSummary s);
             pe_reason := reason |}).
Proof. intros Hs. unfold endCall_begin. rewrite Hs. reflexivity. Qed.

(** [endCall] is its two parts run one after the other. *)
Lemma endCall_phases now cid reason hang st :
  endCall now cid reason hang st
  = match endCall_begin now cid reason st with
    | (waiting, Some p) => endCall_finish p hang waiting
    | (waiting, None) => (waiting, emptyStats)
    end.
Proof.
  unfold endCall, endCall_begin, endCall_finish.
  destruct (activeSessions st !! cid) as [s | ]; [ | reflexivity ].
  destruct (sttClients st !! cid); reflexivity.
Qed.

(** C3 (amended): [endCall] returns statistics whatever the state and
    whatever the telephony provider answers.  The first [endCall] on a
    registered call returns the computed statistics: the whole seconds
    since the start, the credits used and the lines of the transcript
    summary.  Once it has completed, the call is unregistered, and every
    later [endCall] on the same id returns the empty statistics and
    changes nothing, however many follow.  An [endCall] that begins while
    the first is still waiting for the telephony provider finds the call
    registered: it returns computed statistics again, with its own
    duration, and a second "callEnded" is emitted.  In every case the
    call's transcription client is disconnected once if the call and its
    client were registered, and not at all otherwise: the first [endCall]
    unregisters the client before it waits. *)
Theorem endCall_idempotent now cid reason hang st :
  let first := endCall now cid reason hang st in
  let st1 := fst first in
  snd first = match activeSessions st !! cid with
              | Some s => statsOf now s
              | None => emptyStats
              end
  /\ (forall now' reason' hang', endCall now' cid reason' hang' st1 = (st1, emptyStats))
  /\ (forall calls, run (endCalls cid calls) st1 = st1)
  /\ (forall calls,
        count_disconnects cid (trace (run (endCalls cid calls) st1))
        = (count_disconnects cid (trace st)
           + match activeSessions st !! cid, sttClients st !! cid with
             | Some _, Some _ => 1
             | _, _ => 0
             end)%nat)
  /\ (forall s now2 reason2 hang2,
        activeSessions st !! cid = Some s ->
        let waiting := endCall_begin now cid reason st in
        let waiting2 := endCall_begin now2 cid reason2 (fst waiting) in
        exists p1 p2,
          snd waiting = Some p1 /\ snd waiting2 = Some p2
          /\ activeSessions (fst waiting) !! cid = Some s
          /\ sttClients (fst waiting) !! cid = None
          /\ let done1 := endCall_finish p1 hang (fst waiting2) in
             let done2 := endCall_finish p2 hang2 (fst done1) in
             snd done1 = statsOf now s
             /\ snd done2 = statsOf now2 s
             /\ trace (fst done2)
                = trace (fst waiting)
                  ++ [Call_signalwireEndCall cid;
                      Emit_callEnded cid (tenantId s) ((now - startTime s) / 1000)
                        (creditsUsed s) reason;
                      Emit_callEnded cid (tenantId s) ((now2 - startTime s) / 1000)
                        (creditsUsed s) reason2]
             /\ count_disconnects cid (trace (fst done2))
                = (count_disconnects cid (trace st)
                   + match sttClients st !! cid with Some _ => 1 | None => 0 end)%nat
             /\ activeSessions (fst done2) !! cid = None).
Proof.
  cbv zeta.
  assert (H1 : forall now' reason' hang',
             endCall now' cid reason' hang' (fst (endCall now cid reason hang st))
             = (fst (endCall now cid reason hang st), emptyStats)).
  { intros. apply endCall_unregistered. apply endCall_unregisters. }
  assert (H2 : forall calls,
             run (endCalls cid calls) (fst (endCall now cid reason hang st))
             = fst (endCall now cid reason hang st)).
  { induction calls as [ | c calls IH]; [ reflexivity | ].
    unfold run in *. simpl. rewrite H1. simpl. exact IH. }
  split; [ | split; [ exact H1 | split; [ exact H2 | split ] ] ].
  - unfold endCall. destruct (activeSessions st !! cid); reflexivity.
  - intros calls. rewrite H2. unfold endCall.
    destruct (activeSessions st !! cid) as [session | ]; simpl; [ | lia ].
    destruct (sttClients st !! cid); simpl;
      rewrite <- ?app_assoc, count_disconnects_app; simpl;
      rewrite ?String.eqb_refl; lia.
  - intros s now2 reason2 hang2 Hs.
    pose proof (endCall_begin_registered now cid reason st s Hs) as E1.
    assert (Hs1 : activeSessions (fst (endCall_begin now cid reason st)) !! cid = Some s)
      by (rewrite endCall_begin_sessions; exact Hs).
    assert (Hc1 : sttClients (fst (endCall_begin now cid reason st)) !! cid = None).
    { rewrite E1. simpl. destruct (sttClients st !! cid) eqn:Hc; simpl;
        [ apply lookup_delete_eq | exact Hc ]. }
    pose proof (endCall_begin_registered now2 cid reason2 _ s Hs1) as E2.
    rewrite Hc1 in E2. rewrite E2.
    eexists. eexists. split; [ rewrite E1; reflexivity | ].
    split; [ reflexivity | ]. split; [ exact Hs1 | ]. split; [ exact Hc1 | ].
    unfold endCall_finish. simpl.
    split; [ reflexivity | ]. split; [ reflexivity | ].
    split; [ rewrite <- !app_assoc; reflexivity | ].
    split; [ | apply lookup_delete_eq ].
    rewrite <- !app_assoc, count_disconnects_app. simpl. rewrite E1. simpl.
    destruct (sttClients st !! cid); simpl;
      rewrite ?count_disconnects_app; simpl; rewrite ?String.eqb_refl; lia.
Qed.

(** ** The duration ceiling *)

(** C4 does not hold of the code: [handleAudioInput] returns before the
    metering and the ceiling check whenever the call's transcription
    client is not connected, so audio frames, however late, leave such a
    call exactly as it was: registered, not metered, not ended. *)
Theorem max_duration_skipped_without_transcription cid st stt fs :
  sttClients st !! cid = Some stt ->
  connected stt = false ->
  run (audioFrames cid fs) st = st.
Proof.
  intros Hc Hn. unfold run. induction fs as [ | f fs IH]; simpl; auto.
  unfold handleAudioInput. rewrite Hc, Hn.
  destruct (activeSessions st !! cid); simpl; exact IH.
Qed.

Lemma max_duration_skipped_without_transcription_witness :
  run (audioFrames "call-1" elevenMinutes) sampleDeaf = sampleDeaf
  /\ activeSessions sampleDeaf !! "call-1" = Some sampleSession
  /\ trace sampleDeaf = [Emit_sessionInitialized "call-1"].
Proof.
  split; [ | split; vm_compute; reflexivity ].
  apply (max_duration_skipped_without_transcription "call-1" sampleDeaf
           createDeepgramSTT elevenMinutes).
  - vm_compute. reflexivity.
  - reflexivity.
Defined.

(** ** What starts a turn *)

(** A run of [generateResponse] shows in the trace: as the generation
    request, or as the error of a generator that could not be reached. *)
Lemma generateResponse_invoked cid session c st :
  exists new,
    trace (fst (generateResponse cid session c st)) = trace st ++ new
    /\ (In (Call_chatCompletion (slice_last 10 (conversationHistory session))) new
        \/ In (Emit_aiError (callId session)) new).
Proof.
  unfold generateResponse, getOpenAI.
  destruct (openaiClient st); [ | destruct (OPENAI_API_KEY (env st)) ];
    cbv zeta; try destruct c; simpl;
    eexists; rewrite <- ?app_assoc; (split; [ reflexivity | ]); simpl; auto.
Qed.

Lemma processUserInput_invokes cid userText w st s :
  activeSessions st !! cid = Some s ->
  exists new,
    trace (processUserInput cid userText w st) = trace st ++ new
    /\ (In (Call_chatCompletion
              (slice_last 10 (conversationHistory s
                                ++ [{| role := user; content := userText |}]))) new
        \/ In (Emit_aiError (callId s)) new).
Proof.
  intros Hs. unfold processUserInput. rewrite Hs. cbv zeta.
  set (s1 := push_history {| role := user; content := userText |} s).
  destruct (generateResponse_invoked cid s1 (llm w) (putSession cid s1 st))
    as (new1 & Ht1 & Hin1).
  destruct (generateResponse cid s1 (llm w) (putSession cid s1 st)) as [st2 response].
  simpl in Ht1.
  assert (Hin : forall more,
             In (Call_chatCompletion
                   (slice_last 10 (conversationHistory s
                                     ++ [{| role := user; content := userText |}])))
                (new1 ++ more)
             \/ In (Emit_aiError (callId s)) (new1 ++ more)).
  { intros more. destruct Hin1 as [H | H]; [ left | right ];
      apply in_or_app; left; exact H. }
  destruct (negb (truthy response)).
  - exists new1. split; [ exact Ht1 | ]. specialize (Hin []).
    rewrite app_nil_r in Hin. exact Hin.
  - destruct (activeSessions st2 !! cid) as [s2 | ].
    + match goal with
      | |- context [speakResponse cid response (tts w) (sched w) ?x] =>
          destruct (advances_speakResponse cid response (tts w) (sched w) x)
            as (_ & _ & (new2 & Ht2 & _))
      end.
      exists (new1 ++ new2). split; [ | apply Hin ].
      rewrite Ht2. simpl. rewrite Ht1, <- app_assoc. reflexivity.
    + exists new1. split; [ exact Ht1 | ]. specialize (Hin []).
      rewrite app_nil_r in Hin. exact Hin.
Qed.

Lemma handleMessage_results txt f sf :
  truthy txt = true ->
  handleMessage (Results (Some txt) f sf)
  = let r := {| text := txt; isFinal := f; speechFinal := sf |} in
    Ev_transcript r
      :: (if f then Ev_finalTranscript r else Ev_interimTranscript r)
      :: (if sf then [Ev_speechEnd r] else []).
Proof.
  intros H. unfold handleMessage, parseTranscriptResult, or_else. simpl.
  rewrite H. simpl. rewrite H. destruct f, sf; reflexivity.
Qed.

Lemma handleMessage_no_text t f sf :
  match t with Some txt => truthy txt = false | None => True end ->
  handleMessage (Results t f sf) = [].
Proof.
  intros H. unfold handleMessage, parseTranscriptResult, or_else. simpl.
  destruct t as [txt | ]; [ rewrite H | ]; reflexivity.
Qed.

Lemma onSttEvent_transcript_spec now cid r w st s :
  activeSessions st !! cid = Some s ->
  truthy (text r) = true ->
  let st' := onSttEvent now cid (Ev_transcript r) w st in
  activeSessions st' !! cid
  = Some (set_isListening true (set_silenceStart None (set_lastUserSpeech (Some now) s)))
  /\ trace st' = trace st ++ [Emit_userSpeaking cid (text r) (isFinal r)].
Proof.
  intros Hs Ht. simpl. rewrite Hs, Ht. simpl. split; [ apply lookup_insert_eq | reflexivity ].
Qed.

Lemma onSttEvent_speechEnd_spec now cid r w st s :
  activeSessions st !! cid = Some s ->
  let st' := onSttEvent now cid (Ev_speechEnd r) w st in
  activeSessions st' !! cid = Some (set_silenceStart (Some now) (set_isListening false s))
  /\ trace st' = trace st.
Proof.
  intros Hs. simpl. rewrite Hs. simpl. split; [ apply lookup_insert_eq | reflexivity ].
Qed.

Lemma onSttEvent_final_blank now cid r w st :
  truthy (trim (text r)) = false ->
  onSttEvent now cid (Ev_finalTranscript r) w st = st.
Proof.
  intros Ht. simpl. rewrite Ht. destruct (activeSessions st !! cid); reflexivity.
Qed.

Lemma onSttEvent_final_turn now cid r w st s :
  activeSessions st !! cid = Some s ->
  truthy (trim (text r)) = true ->
  onSttEvent now cid (Ev_finalTranscript r) w st
  = processUserInput cid (text r) w
      (emit (Emit_userTranscript cid (text r))
         (putSession cid (push_summary ("User: " +:+ text r) s) st)).
Proof. intros Hs Ht. simpl. rewrite Hs, Ht. reflexivity. Qed.

(** C5, as stated, fails on both sides.  A result that is final as a text
    chunk ([is_final]) but not the end of the utterance starts a turn: the
    history gains the user turn and the reply.  A result that ends the
    utterance ([speech_final]) without being final starts none. *)
Lemma turn_trigger_counterexample :
  (exists s',
     activeSessions (sttMessage 1000 "call-1" (Results (Some "Are you open?") true false)
                       sampleWorld sampleLive) !! "call-1" = Some s'
     /\ conversationHistory s'
        = conversationHistory sampleSession
          ++ [{| role := user; content := "Are you open?" |};
              {| role := assistant; content := "We open at nine." |}])
  /\ (exists s',
        activeSessions (sttMessage 1000 "call-1" (Results (Some "Are you open?") false true)
                          sampleWorld sampleLive) !! "call-1" = Some s'
        /\ conversationHistory s' = conversationHistory sampleSession).
Proof. split; eexists; split; vm_compute; reflexivity. Qed.

(** C5 (amended): a message on the socket of a registered call starts a
    turn exactly when it is a result with the [is_final] flag whose text
    is not blank; [speech_final] plays no part.  Then the history gains
    the user turn, the transcript is reported and the generator is run
    (its request, or its error, is in the trace).  Otherwise, blank and
    whitespace-only finals included, the history is unchanged and the
    trace gains no effect of a turn. *)
Theorem turn_processing_trigger now cid m w st s stt :
  activeSessions st !! cid = Some s ->
  sttClients st !! cid = Some stt ->
  ws stt = true ->
  exists s' new,
    activeSessions (sttMessage now cid m w st) !! cid = Some s'
    /\ trace (sttMessage now cid m w st) = trace st ++ new
    /\ if turn_due m
       then (exists rest,
               conversationHistory s'
               = conversationHistory s
                 ++ {| role := user; content := text_of m |} :: rest)
            /\ In (Emit_userTranscript cid (text_of m)) new
            /\ (In (Call_chatCompletion
                      (slice_last 10 (conversationHistory s
                                        ++ [{| role := user; content := text_of m |}])))
                   new
                \/ In (Emit_aiError (callId s)) new)
       else conversationHistory s' = conversationHistory s
            /\ Forall (fun e => turn_effect e = false) new.
Proof.
  intros Hs Hc Hws. unfold sttMessage. rewrite Hc, Hws.
  destruct m as [t f sf | | | | | | ];
    try (simpl; exists s; eexists;
         (split; [ exact Hs | ]);
         (split; [ first [ reflexivity | symmetry; apply app_nil_r ] | ]);
         split; [ reflexivity | repeat constructor ]).
  destruct t as [txt | ]; [ destruct (truthy txt) eqn:Htxt | ].
  - rewrite (handleMessage_results txt f sf Htxt). cbv zeta.
    set (r := {| text := txt; isFinal := f; speechFinal := sf |}).
    cbn [fold_left].
    destruct (onSttEvent_transcript_spec now cid r w st s Hs Htxt) as [Ha Hta].
    cbv zeta in Ha, Hta.
    set (sa := set_isListening true (set_silenceStart None (set_lastUserSpeech (Some now) s)))
      in *.
    set (sta := onSttEvent now cid (Ev_transcript r) w st) in *.
    destruct f.
    + cbn [turn_due text_of]. destruct (truthy (trim txt)) eqn:Htrim.
      * rewrite (onSttEvent_final_turn now cid r w sta sa Ha Htrim).
        set (stb := emit (Emit_userTranscript cid (text r))
                      (putSession cid (push_summary ("User: " +:+ text r) sa) sta)).
        assert (Hb : activeSessions stb !! cid
                     = Some (push_summary ("User: " +:+ text r) sa))
          by (simpl; apply lookup_insert_eq).
        destruct (processUserInput_session cid (text r) w stb _ Hb)
          as (s' & rest & Hs' & Hh & _).
        destruct (processUserInput_invokes cid (text r) w stb _ Hb) as (new & Ht & Hin).
        assert (Htr : trace stb
                      = trace st ++ [Emit_userSpeaking cid txt true;
                                     Emit_userTranscript cid txt]).
        { subst stb. simpl. rewrite Hta. rewrite <- app_assoc. reflexivity. }
        assert (Hgoal :
          (exists rest0, conversationHistory s'
             = conversationHistory s ++ {| role := user; content := txt |} :: rest0)
          /\ In (Emit_userTranscript cid txt)
                ([Emit_userSpeaking cid txt true; Emit_userTranscript cid txt] ++ new)
          /\ (In (Call_chatCompletion
                    (slice_last 10 (conversationHistory s
                                      ++ [{| role := user; content := txt |}])))
                 ([Emit_userSpeaking cid txt true; Emit_userTranscript cid txt] ++ new)
              \/ In (Emit_aiError (callId s))
                    ([Emit_userSpeaking cid txt true; Emit_userTranscript cid txt] ++ new))).
        { split; [ exists rest; exact Hh | ]. split; [ simpl; auto | ].
          destruct Hin as [H | H]; [ left | right ]; simpl; right; right; exact H. }
        assert (Htrace : trace (processUserInput cid (text r) w stb)
                         = trace st ++ [Emit_userSpeaking cid txt true;
                                        Emit_userTranscript cid txt] ++ new).
        { rewrite Ht, Htr, <- app_assoc. reflexivity. }
        destruct sf; cbn [fold_left].
        -- destruct (onSttEvent_speechEnd_spec now cid r w _ s' Hs') as [He Hte].
           cbv zeta in He, Hte. eexists. eexists. split; [ exact He | ].
           split; [ rewrite Hte; exact Htrace | exact Hgoal ].
        -- eexists. eexists. split; [ exact Hs' | ].
           split; [ exact Htrace | exact Hgoal ].
      * rewrite (onSttEvent_final_blank now cid r w sta Htrim).
        destruct sf; cbn [fold_left].
        -- destruct (onSttEvent_speechEnd_spec now cid r w sta sa Ha) as [He Hte].
           cbv zeta in He, Hte. eexists. eexists. split; [ exact He | ].
           split; [ rewrite Hte; exact Hta | ].
           split; [ reflexivity | repeat constructor ].
        -- eexists. eexists. split; [ exact Ha | ]. split; [ exact Hta | ].
           split; [ reflexivity | repeat constructor ].
    + cbn [turn_due]. change (onSttEvent now cid (Ev_interimTranscript r) w sta) with sta.
      destruct sf; cbn [fold_left].
      * destruct (onSttEvent_speechEnd_spec now cid r w sta sa Ha) as [He Hte].
        cbv zeta in He, Hte. eexists. eexists. split; [ exact He | ].
        split; [ rewrite Hte; exact Hta | ].
        split; [ reflexivity | repeat constructor ].
      * eexists. eexists. split; [ exact Ha | ]. split; [ exact Hta | ].
        split; [ reflexivity | repeat constructor ].
  - rewrite (handleMessage_no_text (Some txt) f sf Htxt). simpl fold_left.
    assert (Hdue : turn_due (Results (Some txt) f sf) = false).
    { destruct txt; [ destruct f; reflexivity | discriminate ]. }
    rewrite Hdue. exists s, []. rewrite app_nil_r. repeat split; auto.
  - rewrite (handleMessage_no_text None f sf I). simpl fold_left.
    exists s, []. rewrite app_nil_r. repeat split; auto.
Qed.

Lemma turn_processing_trigger_witness :
  exists s' new,
    activeSessions (sttMessage 1000 "call-1" finalChunk sampleWorld sampleLive) !! "call-1"
    = Some s'
    /\ trace (sttMessage 1000 "call-1" finalChunk sampleWorld sampleLive)
       = trace sampleLive ++ new
    /\ if turn_due finalChunk
       then (exists rest,
               conversationHistory s'
               = conversationHistory sampleSession
                 ++ {| role := user; content := text_of finalChunk |} :: rest)
            /\ In (Emit_userTranscript "call-1" (text_of finalChunk)) new
            /\ (In (Call_chatCompletion
                      (slice_last 10
                         (conversationHistory sampleSession
                            ++ [{| role := user; content := text_of finalChunk |}])))
                   new
                \/ In (Emit_aiError (callId sampleSession)) new)
       else conversationHistory s' = conversationHistory sampleSession
            /\ Forall (fun e => turn_effect e = false) new.
Proof.
  apply (turn_processing_trigger 1000 "call-1" finalChunk sampleWorld sampleLive
           sampleSession {| ws := true; isConnected := true; reconnectAttempts := 0 |}).
  - vm_compute. reflexivity.
  - vm_compute. reflexivity.
  - reflexivity.
Defined.

(** ** Speech *)

Lemma playback_effects cid chunks thr sched s :
  Forall (fun e => speech_effect e = true) (snd (playback cid chunks thr sched s)).
Proof.
  revert sched s. induction chunks as [ | chunk rest IH]; intros sched s; simpl.
  - destruct thr; repeat constructor.
  - destruct (negb _); [ constructor | ].
    specialize (IH (tl sched) (run_slot (hd [] sched) s)).
    destruct (playback cid rest thr (tl sched) (run_slot (hd [] sched) s)) as [s' es].
    simpl in *. constructor; [ reflexivity | exact IH ].
Qed.

Lemma speakResponse_trace cid text stream sched st :
  exists new,
    trace (speakResponse cid text stream sched st) = trace st ++ new
    /\ Forall (fun e => speech_effect e = true) new.
Proof.
  unfold speakResponse. destruct (activeSessions st !! cid) as [session | ].
  - cbv zeta. destruct (negb _).
    + eexists. simpl. rewrite <- !app_assoc. split; [ reflexivity | repeat constructor ].
    + pose proof (playback_effects cid (frames stream) (throws stream) sched
                    (set_isSpeaking true session)) as Hes.
      destruct (playback cid (frames stream) (throws stream) sched
                  (set_isSpeaking true session)) as [s' es].
      simpl in Hes. eexists. simpl. rewrite <- !app_assoc. split; [ reflexivity | ].
      constructor; [ reflexivity | ]. apply Forall_app. split; [ exact Hes | ].
      repeat constructor.
  - exists []. rewrite app_nil_r. split; [ reflexivity | constructor ].
Qed.


(** ** Failed generations *)




(** ** Beginning a session *)



Lemma generateResponse_unavailable cid session c st :
  llm_available st = false ->
  generateResponse cid session c st
  = (emit (Emit_aiError (callId session)) st, fallbackMessage (agent session)).
Proof.
  intros H. unfold generateResponse, getOpenAI, llm_available in *.
  apply orb_false_iff in H as [-> ->]. reflexivity.
Qed.

(** C9, as stated, fails: without the language-model key
    [initializeSession] resolves and registers the session; the missing
    key shows only at the first turn, as an "aiError" and the fallback
    message, and no generation request is made. *)
Lemma fail_fast_counterexample :
  snd (initializeSession 0 "call-1" "tenant-A" "agent-X" sampleAgent None None Opens
         (newOrchestrator noLlmEnv))
  = Resolved sampleSession
  /\ (exists s,
        activeSessions (run unconfiguredCall (newOrchestrator noLlmEnv)) !! "call-1" = Some s
        /\ conversationHistory s
           = conversationHistory sampleSession
             ++ [{| role := user; content := "Are you open?" |};
                 {| role := assistant; content := "Could you please repeat that?" |}])
  /\ In (Emit_aiError "call-1") (trace (run unconfiguredCall (newOrchestrator noLlmEnv)))
  /\ Forall (fun e => match e with Call_chatCompletion _ => False | _ => True end)
       (trace (run unconfiguredCall (newOrchestrator noLlmEnv))).
Proof.
  split; [ vm_compute; reflexivity | ]. split; [ | split ].
  - eexists. split; vm_compute; reflexivity.
  - vm_compute. tauto.
  - vm_compute. repeat constructor.
Qed.

(** * Further properties of the orchestrator *)

(** ** Inbound audio *)

Lemma handleBargeIn_session cid st s :
  activeSessions st !! cid = Some s ->
  activeSessions (handleBargeIn cid st) !! cid = Some (set_isSpeaking false s)
  /\ sttClients (handleBargeIn cid st) = sttClients st
  /\ ttsQueue (handleBargeIn cid st) !! cid = Some []
  /\ trace (handleBargeIn cid st) = trace st ++ [Emit_bargeIn cid].
Proof.
  intros Hs. unfold handleBargeIn. rewrite Hs. simpl.
  repeat split; apply lookup_insert_eq.
Qed.

Lemma checkSilence_session now cid st s :
  activeSessions st !! cid = Some s ->
  exists s', activeSessions (checkSilence now cid st) !! cid = Some s'
    /\ evolves s s' /\ creditsUsed s' = creditsUsed s /\ isSpeaking s' = isSpeaking s
    /\ sttClients (checkSilence now cid st) = sttClients st
    /\ trace (checkSilence now cid st) = trace st.
Proof.
  intros Hs. unfold checkSilence. rewrite Hs.
  assert (Hsame : exists s', activeSessions st !! cid = Some s'
            /\ evolves s s' /\ creditsUsed s' = creditsUsed s /\ isSpeaking s' = isSpeaking s
            /\ sttClients st = sttClients st /\ trace st = trace st).
  { exists s. split; [ exact Hs | ]. split; [ apply evolves_refl | ]. repeat split. }
  destruct (silenceStart s); [ destruct (_ && _) | ]; try exact Hsame.
  eexists. split; [ simpl; apply lookup_insert_eq | ].
  split; [ eauto with orch | ]. repeat split.
Qed.



(** ** Sessions from one operation to the next *)

(** Whatever the operation, a session registered after it is either a
    later state of the session registered under the same id before it
    (same call, tenant, agent and start time; history and transcript
    summary extended, the history by user and assistant turns only), or
    the fresh session of an [initializeSession] on that id. *)
Theorem session_after_step st op cid s' :
  activeSessions (step st op) !! cid = Some s' ->
  (exists s, activeSessions st !! cid = Some s /\ evolves s s')
  \/ (is_initialize op = true /\ target op = cid
      /\ conversationHistory s'
         = [{| role := system; content := buildSystemPrompt (agent s') |}]
      /\ creditsUsed s' = 0 /\ callId s' = cid).
Proof.
  intros Hs'. pose proof (advances_step st op) as Hadv.
  destruct op; try (left; eapply advances_lookup; eauto; fail).
  simpl in Hs'.
  destruct (initializeSession_registry now callId0 tenantId0 agentId0 agent0
              campaignId0 known conn st) as (Hreg & _).
  rewrite Hreg in Hs'. destruct (decide (cid = callId0)) as [-> | Hne].
  - rewrite lookup_insert_eq in Hs'. inversion Hs'; subst. right. repeat split.
  - rewrite lookup_insert_ne in Hs' by congruence. left. eauto with orch.
Qed.

Lemma session_after_step_witness :
  exists s',
    activeSessions (step sampleLive (heard 1000 "Are you open?")) !! "call-1" = Some s'
    /\ ((exists s, activeSessions sampleLive !! "call-1" = Some s /\ evolves s s')
        \/ (is_initialize (heard 1000 "Are you open?") = true
            /\ target (heard 1000 "Are you open?") = "call-1"
            /\ conversationHistory s'
               = [{| role := system; content := buildSystemPrompt (agent s') |}]
            /\ creditsUsed s' = 0 /\ callId s' = "call-1")).
Proof.
  eexists. split; [ vm_compute; reflexivity | ].
  apply (session_after_step sampleLive (heard 1000 "Are you open?") "call-1").
  vm_compute. reflexivity.
Defined.

(** ** The shape of a speech *)

Lemma playback_shape cid chunks thr sched s :
  exists n, (n <= length chunks)%nat
    /\ snd (playback cid chunks thr sched s)
       = map (Emit_audioOutput cid) (take n chunks)
         ++ (if thr && (n =? length chunks)%nat then [Emit_ttsError cid] else []).
Proof.
  revert sched s. induction chunks as [ | chunk rest IH]; intros sched s; simpl.
  - exists 0%nat. split; [ lia | ]. destruct thr; reflexivity.
  - destruct (negb (isSpeaking (run_slot (hd [] sched) s))).
    + exists 0%nat. split; [ lia | ]. simpl. rewrite andb_false_r. reflexivity.
    + destruct (IH (tl sched) (run_slot (hd [] sched) s)) as (n & Hn & Hes).
      destruct (playback cid rest thr (tl sched) (run_slot (hd [] sched) s)) as [s' es].
      simpl in *. exists (S n). split; [ lia | ]. simpl. rewrite Hes. reflexivity.
Qed.

(** [speakResponse] on an unknown call does nothing.  On a registered
    call its output is bracketed, whatever happens in between, by
    "aiSpeaking" and "aiFinishedSpeaking", and the session is left not
    speaking.  Without a synthesis key the only thing in between is
    "ttsNotConfigured"; with it, the frames forwarded are a prefix of the
    stream's frames in order, followed by "ttsError" exactly when the loop
    consumed every frame and the stream then failed. *)
Theorem speakResponse_brackets cid text stream sched st :
  match activeSessions st !! cid with
  | None => speakResponse cid text stream sched st = st
  | Some s =>
      exists mid s',
        trace (speakResponse cid text stream sched st)
        = trace st ++ Emit_aiSpeaking cid text :: mid ++ [Emit_aiFinishedSpeaking cid]
        /\ activeSessions (speakResponse cid text stream sched st) !! cid = Some s'
        /\ isSpeaking s' = false
        /\ if ELEVENLABS_API_KEY (env st)
           then exists n, (n <= length (frames stream))%nat
                  /\ mid = map (Emit_audioOutput cid) (take n (frames stream))
                           ++ (if throws stream && (n =? length (frames stream))%nat
                               then [Emit_ttsError cid] else [])
           else mid = [Emit_ttsNotConfigured cid text]
  end.
Proof.
  unfold speakResponse. destruct (activeSessions st !! cid) as [s | ]; [ | reflexivity ].
  cbv zeta. simpl env. destruct (ELEVENLABS_API_KEY (env st)); simpl negb; cbv iota.
  - destruct (playback_shape cid (frames stream) (throws stream) sched
                (set_isSpeaking true s)) as (n & Hn & Hes).
    destruct (playback cid (frames stream) (throws stream) sched
                (set_isSpeaking true s)) as [s' es].
    simpl in Hes. exists es. eexists. split; [ | split; [ | split ] ].
    + simpl. rewrite <- app_assoc. simpl. rewrite <- app_assoc. reflexivity.
    + simpl. apply lookup_insert_eq.
    + reflexivity.
    + exists n. split; [ exact Hn | exact Hes ].
  - exists [Emit_ttsNotConfigured cid text]. eexists. split; [ | split; [ | split ] ].
    + simpl. rewrite <- !app_assoc. reflexivity.
    + simpl. apply lookup_insert_eq.
    + reflexivity.
    + reflexivity.
Qed.

(** ** Voice activity and barge-in *)

Lemma energy_shift (audio : Buffer) a :
  fold_left (fun acc b => acc + Z.abs (b - 128)) audio a
  = a + fold_left (fun acc b => acc + Z.abs (b - 128)) audio 0.
Proof.
  revert a. induction audio as [ | b audio IH]; intros a; simpl; [ lia | ].
  rewrite (IH (a + Z.abs (b - 128))), (IH (0 + Z.abs (b - 128))). lia.
Qed.

Lemma energy_upper (audio : Buffer) :
  Forall (fun b => Z.abs (b - 128) <= 10) audio ->
  fold_left (fun acc b => acc + Z.abs (b - 128)) audio 0 <= 10 * Z.of_nat (length audio).
Proof.
  intros H. induction H as [ | b audio Hb _ IH]; cbn [fold_left length]; [ lia | ].
  rewrite energy_shift, Nat2Z.inj_succ. lia.
Qed.

Lemma energy_lower (audio : Buffer) :
  Forall (fun b => 10 < Z.abs (b - 128)) audio ->
  10 * Z.of_nat (length audio) + Z.of_nat (length audio)
  <= fold_left (fun acc b => acc + Z.abs (b - 128)) audio 0.
Proof.
  intros H. induction H as [ | b audio Hb _ IH]; cbn [fold_left length]; [ lia | ].
  rewrite energy_shift, Nat2Z.inj_succ. lia.
Qed.

(** The energy detector: a frame whose samples all lie within 10 of the
    mid level 128 never counts as voice (the empty frame among them), and
    a frame that is not empty and whose samples all lie further away
    always does. *)
Theorem detectVoiceActivity_threshold audio :
  (Forall (fun b => Z.abs (b - 128) <= 10) audio -> detectVoiceActivity audio = false)
  /\ (audio <> [] -> Forall (fun b => 10 < Z.abs (b - 128)) audio ->
      detectVoiceActivity audio = true).
Proof.
  unfold detectVoiceActivity. split.
  - intros H. rewrite Z.gtb_ltb. apply Z.ltb_ge. apply energy_upper. exact H.
  - intros Hne H. rewrite Z.gtb_ltb. apply Z.ltb_lt.
    pose proof (energy_lower audio H) as Hl.
    destruct audio as [ | b0 audio]; [ congruence | ].
    cbn [length] in *. rewrite Nat2Z.inj_succ in *. lia.
Qed.

Lemma detectVoiceActivity_threshold_witness :
  detectVoiceActivity quietFrame = false /\ detectVoiceActivity voicedFrame = true.
Proof.
  split.
  - apply (proj1 (detectVoiceActivity_threshold quietFrame)).
    repeat constructor; simpl; lia.
  - apply (proj2 (detectVoiceActivity_threshold voicedFrame)).
    + discriminate.
    + repeat constructor; simpl; lia.
Defined.

Lemma updateCallCredits_below_trace now cid hang st s :
  activeSessions st !! cid = Some s ->
  callId s = cid ->
  now - startTime s < MAX_CALL_DURATION_SEC * 1000 ->
  let st' := updateCallCredits now cid hang st in
  activeSessions st' !! cid
  = Some (set_creditsUsed (Z.max (creditsUsed s) (minuteCredits (startTime s) now)) s)
  /\ ttsQueue st' = ttsQueue st
  /\ exists new, trace st' = trace st ++ new /\ Forall (positive_deduction cid) new.
Proof.
  intros Hs Hid Hlt. unfold updateCallCredits. rewrite Hs. cbv zeta.
  apply Z.leb_gt in Hlt. rewrite Hlt.
  fold (minuteCredits (startTime s) now).
  destruct (Z.gtb_spec (minuteCredits (startTime s) now) (creditsUsed s)) as [Hgt | Hle];
    simpl.
  - rewrite lookup_insert_eq, Z.max_r by lia. repeat split.
    eexists. split; [ reflexivity | ]. constructor; [ | constructor ].
    simpl. split; [ exact Hid | lia ].
  - rewrite Hs, Z.max_l by lia.
    replace (set_creditsUsed (creditsUsed s) s) with s by (destruct s; reflexivity).
    repeat split. exists []. rewrite app_nil_r. split; [ reflexivity | constructor ].
Qed.

Lemma checkSilence_ttsQueue now cid st :
  ttsQueue (checkSilence now cid st) = ttsQueue st.
Proof.
  unfold checkSilence. destruct (activeSessions st !! cid) as [s | ]; [ | reflexivity ].
  destruct (silenceStart s); [ | reflexivity ].
  match goal with |- context [if ?c then _ else _] => destruct c end; reflexivity.
Qed.

(** An audio frame for a call with a connected transcription client,
    before the duration ceiling.  The frame is always handed to the
    client; it is preceded by a barge-in, which clears the speaking flag
    and empties the speech queue, exactly when the agent is speaking and
    the frame carries voice; the only other events are deductions of a
    positive number of credits. *)
Theorem barge_in_exactly_on_voice now cid audio hang st s stt :
  activeSessions st !! cid = Some s ->
  callId s = cid ->
  sttClients st !! cid = Some stt ->
  connected stt = true ->
  ws stt = true ->
  now - startTime s < MAX_CALL_DURATION_SEC * 1000 ->
  let st' := handleAudioInput now cid audio hang st in
  let barged := isSpeaking s && detectVoiceActivity audio in
  exists s' deductions,
    activeSessions st' !! cid = Some s'
    /\ isSpeaking s' = isSpeaking s && negb (detectVoiceActivity audio)
    /\ (barged = true -> ttsQueue st' !! cid = Some [])
    /\ trace st'
       = trace st ++ (if barged then [Emit_bargeIn cid] else [])
         ++ Call_sttSendAudio cid audio :: deductions
    /\ Forall (positive_deduction cid) deductions.
Proof.
  intros Hs Hid Hc Hcon Hws Hlt. cbv zeta.
  unfold handleAudioInput. rewrite Hs, Hc, Hcon. simpl negb. cbv iota zeta.
  unfold connected in Hcon. rewrite Hcon, Hws. simpl andb. cbv iota.
  match goal with
  | |- context [checkSilence now cid ?x] => set (st1 := x)
  end.
  assert (H1 : exists s1, activeSessions st1 !! cid = Some s1 /\ evolves s s1
                /\ isSpeaking s1 = isSpeaking s && negb (detectVoiceActivity audio)
                /\ (isSpeaking s && detectVoiceActivity audio = true ->
                    ttsQueue st1 !! cid = Some [])
                /\ trace st1
                   = trace st
                     ++ (if isSpeaking s && detectVoiceActivity audio
                         then [Emit_bargeIn cid] else [])
                     ++ [Call_sttSendAudio cid audio]).
  { subst st1. destruct (isSpeaking s) eqn:Hsp;
      [ destruct (detectVoiceActivity audio) eqn:Hv | ]; simpl.
    - destruct (handleBargeIn_session cid st s Hs) as (Hb & _ & Hq & Hbt).
      rewrite Hb, Hq, Hbt, <- app_assoc. eexists.
      split; [ reflexivity | ]. split; [ eauto with orch | ]. repeat split.
    - rewrite Hs. eexists. split; [ reflexivity | ].
      split; [ apply evolves_refl | ]. rewrite Hsp. repeat split. discriminate.
    - rewrite Hs. eexists. split; [ reflexivity | ].
      split; [ apply evolves_refl | ]. rewrite Hsp. repeat split. discriminate. }
  destruct H1 as (s1 & H1 & Hev1 & Hsp1 & Hq1 & Ht1).
  pose proof (checkSilence_ttsQueue now cid st1) as Hq2.
  destruct (checkSilence_session now cid st1 s1 H1)
    as (s2 & H2 & Hev2 & _ & Hsp2 & _ & Ht2).
  pose proof (evolves_trans _ _ _ Hev1 Hev2) as (Hcid & _ & _ & _ & _ & _ & Hst & _).
  destruct (updateCallCredits_below_trace now cid hang (checkSilence now cid st1) s2 H2)
    as (A & Bq & (new & Et & En)).
  { congruence. } { rewrite Hst. exact Hlt. }
  eexists. exists new. split; [ exact A | ]. split; [ simpl; congruence | ].
  split; [ intros Hb; rewrite Bq, Hq2; auto | ]. split; [ | exact En ].
  rewrite Et, Ht2, Ht1, <- !app_assoc. reflexivity.
Qed.

Lemma barge_in_exactly_on_voice_witness :
  exists s' deductions,
    activeSessions (handleAudioInput 30000 "call-1" voicedFrame HangupOk sampleSpeaking)
      !! "call-1" = Some s'
    /\ isSpeaking s'
       = isSpeaking (set_isSpeaking true sampleSession)
         && negb (detectVoiceActivity voicedFrame)
    /\ (isSpeaking (set_isSpeaking true sampleSession) && detectVoiceActivity voicedFrame
        = true ->
        ttsQueue (handleAudioInput 30000 "call-1" voicedFrame HangupOk sampleSpeaking)
          !! "call-1" = Some [])
    /\ trace (handleAudioInput 30000 "call-1" voicedFrame HangupOk sampleSpeaking)
       = trace sampleSpeaking
         ++ (if isSpeaking (set_isSpeaking true sampleSession)
                && detectVoiceActivity voicedFrame
             then [Emit_bargeIn "call-1"] else [])
         ++ Call_sttSendAudio "call-1" voicedFrame :: deductions
    /\ Forall (positive_deduction "call-1") deductions.
Proof.
  apply (barge_in_exactly_on_voice 30000 "call-1" voicedFrame HangupOk sampleSpeaking
           (set_isSpeaking true sampleSession)
           {| ws := true; isConnected := true; reconnectAttempts := 0 |}).
  - vm_compute. reflexivity.
  - reflexivity.
  - vm_compute. reflexivity.
  - reflexivity.
  - reflexivity.
  - vm_compute. reflexivity.
Defined.

(** ** Blank transcripts *)

Lemma trim_all_space t : all_space t = true -> trim t = EmptyString.
Proof.
  intros H. unfold trim.
  assert (Hs : trimStart t = EmptyString).
  { induction t as [ | c t IH]; simpl in *; [ reflexivity | ].
    apply andb_true_iff in H as [Hc Ht]. rewrite Hc. auto. }
  rewrite Hs. reflexivity.
Qed.

(** A final transcript made of white space only, of whatever length,
    starts no turn on a registered call: the history and the transcript
    summary stay as they are and the trace gains no effect of a turn.  It
    is not ignored altogether: unless it is empty it is still reported as
    "userSpeaking". *)
Theorem blank_final_starts_no_turn now cid t sf w st s stt :
  activeSessions st !! cid = Some s ->
  sttClients st !! cid = Some stt ->
  ws stt = true ->
  all_space t = true ->
  let st' := sttMessage now cid (Results (Some t) true sf) w st in
  exists s',
    activeSessions st' !! cid = Some s'
    /\ conversationHistory s' = conversationHistory s
    /\ transcriptSummary s' = transcriptSummary s
    /\ creditsUsed s' = creditsUsed s
    /\ trace st'
       = trace st ++ (if truthy t then [Emit_userSpeaking cid t true] else []).
Proof.
  intros Hs Hc Hws Hsp. cbv zeta. unfold sttMessage. rewrite Hc, Hws.
  pose proof (trim_all_space t Hsp) as Htrim.
  destruct (truthy t) eqn:Htxt.
  - rewrite (handleMessage_results t true sf Htxt). cbv zeta.
    set (r := {| text := t; isFinal := true; speechFinal := sf |}).
    cbn [fold_left].
    destruct (onSttEvent_transcript_spec now cid r w st s Hs Htxt) as [Ha Hta].
    cbv zeta in Ha, Hta.
    rewrite (onSttEvent_final_blank now cid r w _) by (simpl; rewrite Htrim; reflexivity).
    destruct sf; cbn [fold_left].
    + destruct (onSttEvent_speechEnd_spec now cid r w _ _ Ha) as [He Hte].
      cbv zeta in He, Hte. eexists. split; [ exact He | ].
      rewrite Hte, Hta. repeat split.
    + eexists. split; [ exact Ha | ]. rewrite Hta. repeat split.
  - rewrite (handleMessage_no_text (Some t) true sf Htxt). simpl fold_left.
    exists s. rewrite app_nil_r. repeat split. exact Hs.
Qed.

Lemma blank_final_starts_no_turn_witness :
  exists s',
    activeSessions (sttMessage 1000 "call-1" blankFinal sampleWorld sampleLive) !! "call-1"
    = Some s'
    /\ conversationHistory s' = conversationHistory sampleSession
    /\ transcriptSummary s' = transcriptSummary sampleSession
    /\ creditsUsed s' = creditsUsed sampleSession
    /\ trace (sttMessage 1000 "call-1" blankFinal sampleWorld sampleLive)
       = trace sampleLive
         ++ (if truthy (text_of blankFinal)
             then [Emit_userSpeaking "call-1" (text_of blankFinal) true] else []).
Proof.
  apply (blank_final_starts_no_turn 1000 "call-1" (text_of blankFinal) true sampleWorld
           sampleLive sampleSession
           {| ws := true; isConnected := true; reconnectAttempts := 0 |}).
  - vm_compute. reflexivity.
  - vm_compute. reflexivity.
  - reflexivity.
  - reflexivity.
Defined.


(** * Generation requests over whole runs *)

Lemma requests_app es1 es2 : requests (es1 ++ es2) = requests es1 ++ requests es2.
Proof.
  induction es1 as [ | e es1 IH]; simpl; auto.
  destruct e; simpl; auto. rewrite IH. reflexivity.
Qed.

Lemma requests_speech es :
  Forall (fun e => speech_effect e = true) es -> requests es = [].
Proof.
  intros H. induction H as [ | e es He _ IH]; simpl; auto.
  destruct e; simpl in *; auto; discriminate.
Qed.

Lemma silent_refl st : silent st st.
Proof. repeat split. exists []. rewrite app_nil_r. auto. Qed.

Lemma silent_trans st1 st2 st3 : silent st1 st2 -> silent st2 st3 -> silent st1 st3.
Proof.
  intros (e1 & c1 & (n1 & t1 & r1)) (e2 & c2 & (n2 & t2 & r2)).
  repeat split; try congruence.
  exists (n1 ++ n2). rewrite t2, t1, app_assoc, requests_app, r1, r2. auto.
Qed.

Lemma silent_same st st' :
  env st' = env st -> openaiClient st' = openaiClient st -> trace st' = trace st ->
  silent st st'.
Proof.
  intros He Hc Ht. repeat split; auto. exists []. rewrite app_nil_r. auto.
Qed.

Lemma silent_emit e st : requests [e] = [] -> silent st (emit e st).
Proof. intros He. repeat split. exists [e]. auto. Qed.

Lemma silent_emit_all es st : requests es = [] -> silent st (emit_all es st).
Proof. intros He. repeat split. exists es. auto. Qed.

Ltac sil :=
  lazymatch goal with
  | |- silent ?a ?a => apply silent_refl
  | |- silent ?a (emit ?e ?x) =>
      apply (silent_trans a x); [ sil | apply silent_emit; reflexivity ]
  | |- silent ?a (emit_all ?es ?x) =>
      apply (silent_trans a x); [ sil | apply silent_emit_all; assumption ]
  | |- silent ?a (putSession _ _ ?x) =>
      apply (silent_trans a x); [ sil | apply silent_same; reflexivity ]
  | |- silent ?a (set_ttsQueue _ ?x) =>
      apply (silent_trans a x); [ sil | apply silent_same; reflexivity ]
  | |- silent ?a (set_sttClients _ ?x) =>
      apply (silent_trans a x); [ sil | apply silent_same; reflexivity ]
  | |- silent ?a (set_audioBuffers _ ?x) =>
      apply (silent_trans a x); [ sil | apply silent_same; reflexivity ]
  | |- silent ?a (set_activeSessions _ ?x) =>
      apply (silent_trans a x); [ sil | apply silent_same; reflexivity ]
  | |- _ => idtac
  end.

Lemma silent_endCall_begin now cid reason st :
  silent st (fst (endCall_begin now cid reason st)).
Proof.
  unfold endCall_begin. destruct (activeSessions st !! cid); [ | apply silent_refl ].
  destruct (sttClients st !! cid); cbv zeta; unfold fst; sil.
Qed.

Lemma silent_endCall_finish p hang st : silent st (fst (endCall_finish p hang st)).
Proof. unfold endCall_finish. cbv zeta. unfold fst. sil. Qed.

Lemma silent_endCall now cid reason hang st :
  silent st (fst (endCall now cid reason hang st)).
Proof.
  unfold endCall. destruct (activeSessions st !! cid); [ | apply silent_refl ].
  destruct (sttClients st !! cid); cbv zeta; unfold fst; sil.
Qed.

Lemma silent_updateCallCredits now cid hang st :
  silent st (updateCallCredits now cid hang st).
Proof.
  unfold updateCallCredits.
  destruct (activeSessions st !! cid) as [session | ]; [ | apply silent_refl ].
  cbv zeta.
  match goal with
  | |- silent _ (if _ then fst (endCall_begin _ _ _ ?x) else _) =>
      assert (H1 : silent st x)
  end.
  { destruct (_ >? _); sil. }
  destruct (_ <=? _); [ | exact H1 ].
  eapply silent_trans; [ exact H1 | apply silent_endCall_begin ].
Qed.

Lemma silent_handleBargeIn cid st : silent st (handleBargeIn cid st).
Proof.
  unfold handleBargeIn. destruct (activeSessions st !! cid); cbv zeta; sil.
Qed.

Lemma silent_checkSilence now cid st : silent st (checkSilence now cid st).
Proof.
  unfold checkSilence. destruct (activeSessions st !! cid) as [s | ]; [ | apply silent_refl ].
  destruct (silenceStart s); [ | apply silent_refl ].
  match goal with |- context [if ?c then _ else _] => destruct c end; sil.
Qed.

Lemma silent_handleAudioInput now cid audio hang st :
  silent st (handleAudioInput now cid audio hang st).
Proof.
  unfold handleAudioInput.
  destruct (activeSessions st !! cid) as [session | ]; [ | apply silent_refl ].
  destruct (sttClients st !! cid) as [stt | ]; [ | apply silent_refl ].
  destruct (negb (connected stt)); [ apply silent_refl | ].
  cbv zeta.
  eapply silent_trans; [ | apply silent_updateCallCredits ].
  eapply silent_trans; [ | apply silent_checkSilence ].
  destruct (isConnected stt && ws stt); sil;
    (destruct (isSpeaking session); [ | apply silent_refl ];
     destruct (detectVoiceActivity audio);
     [ apply silent_handleBargeIn | apply silent_refl ]).
Qed.

Lemma silent_speakResponse cid text stream sched st :
  silent st (speakResponse cid text stream sched st).
Proof.
  unfold speakResponse.
  destruct (activeSessions st !! cid) as [session | ]; [ | apply silent_refl ].
  cbv zeta. destruct (negb _).
  - sil.
  - pose proof (requests_speech _ (playback_effects cid (frames stream) (throws stream)
                                     sched (set_isSpeaking true session))) as Hes.
    destruct (playback cid (frames stream) (throws stream) sched
                (set_isSpeaking true session)) as [s' es].
    simpl in Hes. sil.
Qed.

Lemma silent_sendGreeting cid stream sched st :
  silent st (sendGreeting cid stream sched st).
Proof.
  unfold sendGreeting.
  destruct (activeSessions st !! cid) as [session | ]; [ | apply silent_refl ].
  cbv zeta. eapply silent_trans; [ | apply silent_speakResponse ]. sil.
Qed.

Lemma silent_initializeSession now cid tid aid ag camp known conn st :
  silent st (fst (initializeSession now cid tid aid ag camp known conn st)).
Proof.
  unfold initializeSession. cbv zeta.
  destruct (DEEPGRAM_API_KEY _); [ destruct conn | ]; unfold fst; sil.
Qed.

Lemma silent_follows st st' : silent st st' -> follows st st'.
Proof.
  intros (He & Hc & (new & Ht & Hr)). unfold follows, llm_available.
  rewrite He, Hc. repeat split. exists new. rewrite Hr. repeat split; auto.
Qed.

Lemma follows_refl st : follows st st.
Proof. apply silent_follows, silent_refl. Qed.

Lemma follows_trans st1 st2 st3 :
  follows st1 st2 -> (sessions_ok st1 -> sessions_ok st2) -> follows st2 st3 ->
  follows st1 st3.
Proof.
  intros (e1 & a1 & (n1 & t1 & r1 & p1)) Hok (e2 & a2 & (n2 & t2 & r2 & p2)).
  unfold follows. repeat split; try congruence.
  exists (n1 ++ n2). rewrite t2, t1, app_assoc, requests_app. repeat split.
  - intros H. rewrite r1, r2; auto. congruence.
  - intros H. apply Forall_app. auto.
Qed.

Lemma prompted_history_ok s : history_ok s -> prompted_history (conversationHistory s).
Proof. intros (rest & H & Hr). exists (agent s), rest. auto. Qed.

Lemma context_of_prompted h : prompted_history h -> context_of h (slice_last 10 h).
Proof.
  intros (ag & rest & -> & Hrest). split; [ reflexivity | ]. split.
  - apply slice_last_short.
  - intros Hlen. split; [ apply slice_last_drops_head; auto | ].
    unfold slice_last. rewrite length_drop. lia.
Qed.

Lemma follows_generateResponse cid session c st :
  (sessions_ok st -> history_ok session) ->
  follows st (fst (generateResponse cid session c st)).
Proof.
  intros Hh.
  assert (Hctx : sessions_ok st ->
            context_of_history (slice_last 10 (conversationHistory session))).
  { intros Hok. exists (conversationHistory session). split.
    - apply prompted_history_ok, Hh, Hok.
    - apply context_of_prompted, prompted_history_ok, Hh, Hok. }
  unfold generateResponse, getOpenAI, follows, llm_available.
  destruct (openaiClient st) eqn:Hc; [ | destruct (OPENAI_API_KEY (env st)) eqn:Hk ];
    cbv zeta; try destruct c; simpl; rewrite ?Hc, ?Hk; repeat split;
    eexists; rewrite <- ?app_assoc;
    (split; [ reflexivity | ]); simpl;
    (split; [ intros; try discriminate; reflexivity | ]);
    intros Hok; repeat constructor; auto.
Qed.

Lemma follows_processUserInput cid userText w st :
  follows st (processUserInput cid userText w st).
Proof.
  unfold processUserInput.
  destruct (activeSessions st !! cid) as [session | ] eqn:Hs; [ | apply follows_refl ].
  cbv zeta.
  set (s1 := push_history {| role := user; content := userText |} session).
  assert (Hadv1 : advances st (putSession cid s1 st)) by (subst s1; adv).
  assert (H1 : follows st (putSession cid s1 st))
    by (apply silent_follows, silent_same; reflexivity).
  assert (Hl1 : activeSessions (putSession cid s1 st) !! cid = Some s1)
    by (simpl; apply lookup_insert_eq).
  assert (Hh1 : sessions_ok (putSession cid s1 st) -> history_ok s1).
  { intros Hok. destruct (Hok cid s1 Hl1) as [_ Hh]. exact Hh. }
  pose proof (follows_generateResponse cid s1 (llm w) (putSession cid s1 st) Hh1) as H2.
  pose proof (advances_generateResponse cid s1 (llm w) (putSession cid s1 st) Hl1) as Hadv2.
  destruct (generateResponse cid s1 (llm w) (putSession cid s1 st)) as [st2 response].
  simpl in H2, Hadv2.
  assert (H12 : follows st st2).
  { eapply follows_trans; [ exact H1 | | exact H2 ].
    apply advances_sessions_ok. exact Hadv1. }
  destruct (negb (truthy response)); [ exact H12 | ].
  destruct (activeSessions st2 !! cid) as [s2 | ] eqn:Hs2; [ | exact H12 ].
  eapply follows_trans; [ exact H12 | | ].
  - apply advances_sessions_ok. eapply advances_trans; eauto.
  - apply silent_follows. eapply silent_trans; [ | apply silent_speakResponse ]. sil.
Qed.

Lemma follows_onSttEvent now cid ev w st : follows st (onSttEvent now cid ev w st).
Proof.
  destruct ev; simpl; try apply follows_refl.
  - destruct (activeSessions st !! cid) as [session | ] eqn:Hs;
      destruct (negb _); apply silent_follows; sil.
  - destruct (activeSessions st !! cid) as [session | ] eqn:Hs;
      (destruct (negb _); [ apply follows_refl | ];
       eapply follows_trans; [ | | apply follows_processUserInput ];
       [ apply silent_follows; sil | apply advances_sessions_ok; adv ]).
  - destruct (activeSessions st !! cid) as [session | ] eqn:Hs; apply silent_follows; sil.
  - apply silent_follows. sil.
Qed.

Lemma follows_onDetachedSttEvent now cid ev w st :
  follows st (onDetachedSttEvent now cid ev w st).
Proof.
  destruct ev; simpl; try apply follows_refl.
  - destruct (negb _); apply silent_follows; sil.
  - destruct (negb _); [ apply follows_refl | ].
    eapply follows_trans; [ | | apply follows_processUserInput ].
    + apply silent_follows. sil.
    + apply advances_sessions_ok. adv.
  - apply silent_follows. sil.
Qed.

Lemma follows_events now cid w (own : bool) evs : forall st,
  follows st (fold_left (fun (acc : Orchestrator) (ev : SttEvent) =>
                           if own then onSttEvent now cid ev w acc
                           else onDetachedSttEvent now cid ev w acc) evs st).
Proof.
  induction evs as [ | ev evs IH]; intros st; simpl; [ apply follows_refl | ].
  eapply follows_trans; [ | | apply IH ]; destruct own.
  - apply follows_onSttEvent.
  - apply follows_onDetachedSttEvent.
  - apply advances_sessions_ok, advances_onSttEvent.
  - apply advances_sessions_ok, advances_onDetachedSttEvent.
Qed.

Lemma follows_sttMessage now cid m w st : follows st (sttMessage now cid m w st).
Proof.
  unfold sttMessage. destruct (sttClients st !! cid) as [stt | ]; [ | apply follows_refl ].
  destruct (ws stt); [ | apply follows_refl ].
  exact (follows_events now cid w true (handleMessage m) st).
Qed.

Lemma follows_step st op : follows st (step st op).
Proof.
  destruct op.
  - apply silent_follows, silent_initializeSession.
  - apply silent_follows, silent_sendGreeting.
  - apply silent_follows, silent_handleAudioInput.
  - apply follows_sttMessage.
  - apply silent_follows, silent_endCall.
  - apply silent_follows, silent_endCall_begin.
  - apply silent_follows. exact (silent_endCall_finish p hang st).
  - exact (follows_events now callId0 w own (handleMessage m) st).
Qed.

Lemma follows_run ops : forall st, follows st (run ops st).
Proof.
  unfold run. induction ops as [ | op ops IH]; intros st; simpl; [ apply follows_refl | ].
  eapply follows_trans; [ apply follows_step | apply step_sessions_ok | apply IH ].
Qed.

(** C9 (amended): the language-model key plays no part in
    [initializeSession].  Without it the session is still registered and
    the outcome is what the transcription key and the socket decide.  The
    key is missed by each turn on its own, and for good: after any
    operations that follow, the language model is still unavailable, no
    generation request has been made, and [generateResponse] makes none,
    emits "aiError" and returns the agent's fallback message. *)
Theorem missing_generator_found_per_turn now cid tid aid ag camp known conn st :
  llm_available st = false ->
  let r := initializeSession now cid tid aid ag camp known conn st in
  let fresh := newSession now cid tid aid ag camp known in
  activeSessions (fst r) !! cid = Some fresh
  /\ snd r = (if DEEPGRAM_API_KEY (env st) then
                match conn with
                | Opens => Resolved fresh
                | Errors => Rejected "socket error"
                end
              else Resolved fresh)
  /\ forall ops,
       let later := run ops (fst r) in
       llm_available later = false
       /\ requests (trace later) = requests (trace st)
       /\ forall cid' session completion,
            generateResponse cid' session completion later
            = (emit (Emit_aiError (callId session)) later,
               fallbackMessage (agent session)).
Proof.
  intros Hav. cbv zeta.
  destruct (initializeSession_registry now cid tid aid ag camp known conn st)
    as (Hreg & _).
  cbv zeta in Hreg.
  split; [ rewrite Hreg; apply lookup_insert_eq | ].
  split; [ apply initializeSession_outcome | ].
  intros ops.
  destruct (silent_follows _ _
              (silent_initializeSession now cid tid aid ag camp known conn st))
    as (_ & Ha1 & (new1 & Ht1 & Hr1 & _)).
  destruct (follows_run ops (fst (initializeSession now cid tid aid ag camp known conn st)))
    as (_ & Ha2 & (new2 & Ht2 & Hr2 & _)).
  assert (Hoff : llm_available
                   (run ops (fst (initializeSession now cid tid aid ag camp known conn st)))
                 = false) by congruence.
  split; [ exact Hoff | ]. split.
  - rewrite Ht2, Ht1, !requests_app, Hr1, Hr2, !app_nil_r by congruence. reflexivity.
  - intros cid' session c. apply generateResponse_unavailable. exact Hoff.
Qed.

Lemma missing_generator_found_per_turn_witness :
  let r := initializeSession 0 "call-1" "tenant-A" "agent-X" sampleAgent None None Opens
             (newOrchestrator noLlmEnv) in
  let fresh := newSession 0 "call-1" "tenant-A" "agent-X" sampleAgent None None in
  activeSessions (fst r) !! "call-1" = Some fresh
  /\ snd r = (if DEEPGRAM_API_KEY (env (newOrchestrator noLlmEnv)) then
                match Opens with
                | Opens => Resolved fresh
                | Errors => Rejected "socket error"
                end
              else Resolved fresh)
  /\ forall ops,
       let later := run ops (fst r) in
       llm_available later = false
       /\ requests (trace later) = requests (trace (newOrchestrator noLlmEnv))
       /\ forall cid' session completion,
            generateResponse cid' session completion later
            = (emit (Emit_aiError (callId session)) later,
               fallbackMessage (agent session)).
Proof.
  apply (missing_generator_found_per_turn 0 "call-1" "tenant-A" "agent-X" sampleAgent
           None None Opens (newOrchestrator noLlmEnv)).
  reflexivity.
Defined.

(** ** The system prompt and the generation context *)

Lemma processUserInput_requests cid userText w st s :
  llm_available st = true ->
  activeSessions st !! cid = Some s ->
  exists post,
    trace (processUserInput cid userText w st)
    = trace st
      ++ Call_chatCompletion
           (slice_last 10 (conversationHistory s
                             ++ [{| role := user; content := userText |}])) :: post.
Proof.
  intros Hav Hs. unfold processUserInput. rewrite Hs. cbv zeta.
  set (s1 := push_history {| role := user; content := userText |} s).
  assert (Hav1 : llm_available (putSession cid s1 st) = true) by exact Hav.
  assert (H1 : exists new,
             trace (fst (generateResponse cid s1 (llm w) (putSession cid s1 st)))
             = trace st ++ Call_chatCompletion (slice_last 10 (conversationHistory s1)) :: new).
  { destruct (getOpenAI_available _ Hav1) as (st1 & Hg & _ & _ & _ & Ht & _).
    unfold generateResponse. rewrite Hg. cbv zeta.
    destruct (llm w); simpl; rewrite Ht; eexists; rewrite <- ?app_assoc; reflexivity. }
  destruct H1 as (new1 & Ht1).
  destruct (generateResponse cid s1 (llm w) (putSession cid s1 st)) as [st2 response].
  simpl in Ht1. destruct (negb (truthy response)); [ eauto | ].
  destruct (activeSessions st2 !! cid) as [s2 | ]; [ | eauto ].
  match goal with
  | |- context [speakResponse cid response (tts w) (sched w) ?x] =>
      destruct (speakResponse_trace cid response (tts w) (sched w) x) as (new2 & Ht2 & _)
  end.
  exists (new1 ++ new2). rewrite Ht2. simpl. rewrite Ht1, <- app_assoc. reflexivity.
Qed.

Lemma sttMessage_turn_requests now cid m w st s stt :
  activeSessions st !! cid = Some s ->
  sttClients st !! cid = Some stt ->
  ws stt = true ->
  llm_available st = true ->
  turn_due m = true ->
  exists post,
    trace (sttMessage now cid m w st)
    = trace st
      ++ [Emit_userSpeaking cid (text_of m) true; Emit_userTranscript cid (text_of m)]
      ++ Call_chatCompletion
           (slice_last 10 (conversationHistory s
                             ++ [{| role := user; content := text_of m |}])) :: post.
Proof.
  intros Hs Hc Hws Hav Hdue. unfold sttMessage. rewrite Hc, Hws.
  destruct m as [[txt | ] [ | ] sf | | | | | | ]; try discriminate.
  cbn [turn_due] in Hdue. cbn [text_of].
  assert (Htxt : truthy txt = true) by (destruct txt; [ discriminate | reflexivity ]).
  rewrite (handleMessage_results txt true sf Htxt). cbv zeta.
  set (r := {| text := txt; isFinal := true; speechFinal := sf |}).
  cbn [fold_left].
  destruct (onSttEvent_transcript_spec now cid r w st s Hs Htxt) as [Ha Hta].
  cbv zeta in Ha, Hta.
  set (sa := set_isListening true (set_silenceStart None (set_lastUserSpeech (Some now) s)))
    in *.
  set (sta := onSttEvent now cid (Ev_transcript r) w st) in *.
  rewrite (onSttEvent_final_turn now cid r w sta sa Ha Hdue).
  set (stb := emit (Emit_userTranscript cid (text r))
                (putSession cid (push_summary ("User: " +:+ text r) sa) sta)).
  assert (Hb : activeSessions stb !! cid = Some (push_summary ("User: " +:+ text r) sa))
    by (simpl; apply lookup_insert_eq).
  assert (Havb : llm_available stb = true).
  { destruct (silent_follows _ _ (silent_trans _ _ _
                (ltac:(subst sta; simpl; rewrite Hs, Htxt; simpl; sil)
                   : silent st sta)
                (ltac:(subst stb; sil) : silent sta stb))) as (_ & Hl & _).
    congruence. }
  destruct (processUserInput_requests cid (text r) w stb _ Havb Hb) as (post & Ht).
  assert (Htr : trace stb
                = trace st ++ [Emit_userSpeaking cid txt true; Emit_userTranscript cid txt]).
  { subst stb. simpl. rewrite Hta. rewrite <- app_assoc. reflexivity. }
  assert (Hgoal : trace (processUserInput cid (text r) w stb)
                  = trace st
                    ++ [Emit_userSpeaking cid txt true; Emit_userTranscript cid txt]
                    ++ Call_chatCompletion
                         (slice_last 10 (conversationHistory s
                                           ++ [{| role := user; content := txt |}]))
                       :: post).
  { rewrite Ht, Htr, <- app_assoc. reflexivity. }
  destruct sf; cbn [fold_left].
  - destruct (processUserInput_session cid (text r) w stb _ Hb) as (s' & rest & Hs' & _).
    destruct (onSttEvent_speechEnd_spec now cid r w _ s' Hs') as [_ Hte].
    cbv zeta in Hte. exists post. rewrite Hte. exact Hgoal.
  - exists post. exact Hgoal.
Qed.

(** C10: in every run the history of a registered session is the system
    prompt of its agent followed by user and assistant turns only.  Every
    generation request of the run carries the last ten entries of such a
    history: the whole history, system prompt first, while it has at most
    ten entries, and ten turns without any system turn once it has more.
    In particular a final transcript that starts a turn, with the language
    model available, makes the request whose context is cut from the
    stored history and the new user turn. *)
Theorem system_prompt_leaves_context ops e :
  let st := run ops (newOrchestrator e) in
  Forall context_of_history (requests (trace st))
  /\ (forall cid s,
        activeSessions st !! cid = Some s ->
        exists rest,
          conversationHistory s
          = {| role := system; content := buildSystemPrompt (agent s) |} :: rest
          /\ Forall nonsystem rest)
  /\ (forall now cid m w s stt,
        activeSessions st !! cid = Some s ->
        sttClients st !! cid = Some stt ->
        ws stt = true ->
        llm_available st = true ->
        turn_due m = true ->
        let h := conversationHistory s ++ [{| role := user; content := text_of m |}] in
        (exists post,
           trace (sttMessage now cid m w st)
           = trace st
             ++ [Emit_userSpeaking cid (text_of m) true;
                 Emit_userTranscript cid (text_of m)]
             ++ Call_chatCompletion (slice_last 10 h) :: post)
        /\ ((length h <= 10)%nat ->
            exists rest,
              slice_last 10 h
              = {| role := system; content := buildSystemPrompt (agent s) |} :: rest)
        /\ ((10 < length h)%nat ->
            Forall nonsystem (slice_last 10 h) /\ length (slice_last 10 h) = 10%nat)).
Proof.
  cbv zeta.
  pose proof (run_sessions_ok ops (newOrchestrator e) (sessions_ok_new e)) as Hok.
  split; [ | split ].
  - destruct (follows_run ops (newOrchestrator e)) as (_ & _ & (new & Ht & _ & Hp)).
    rewrite Ht. simpl. apply Hp. apply sessions_ok_new.
  - intros cid s Hs. destruct (Hok cid s Hs) as [_ Hh]. exact Hh.
  - intros now cid m w s stt Hs Hc Hws Hav Hdue.
    split; [ apply (sttMessage_turn_requests now cid m w _ s stt); assumption | ].
    destruct (Hok cid s Hs) as [_ (rest & Hh & Hrest)].
    assert (Hp : prompted_history
                   (conversationHistory s ++ [{| role := user; content := text_of m |}])).
    { exists (agent s), (rest ++ [{| role := user; content := text_of m |}]).
      rewrite Hh. split; [ reflexivity | ].
      apply Forall_app. split; [ exact Hrest | ].
      constructor; [ apply nonsystem_user | constructor ]. }
    destruct (context_of_prompted _ Hp) as (_ & Hshort & Hlong).
    split; [ | exact Hlong ].
    intros Hlen. rewrite (Hshort Hlen), Hh. simpl. eauto.
Qed.

Lemma system_prompt_leaves_context_witness :
  activeSessions (run longCall (newOrchestrator fullEnv)) !! "call-1" = Some longSession
  /\ (10 < length (conversationHistory longSession
                     ++ [{| role := user; content := text_of finalChunk |}]))%nat
  /\ Forall nonsystem
       (slice_last 10 (conversationHistory longSession
                         ++ [{| role := user; content := text_of finalChunk |}]))
  /\ exists post,
       trace (sttMessage 7000 "call-1" finalChunk sampleWorld
                (run longCall (newOrchestrator fullEnv)))
       = trace (run longCall (newOrchestrator fullEnv))
         ++ [Emit_userSpeaking "call-1" (text_of finalChunk) true;
             Emit_userTranscript "call-1" (text_of finalChunk)]
         ++ Call_chatCompletion
              (slice_last 10 (conversationHistory longSession
                                ++ [{| role := user; content := text_of finalChunk |}]))
            :: post.
Proof.
  assert (Hs : activeSessions (run longCall (newOrchestrator fullEnv)) !! "call-1"
               = Some longSession) by (vm_compute; reflexivity).
  assert (Hlen : (10 < length (conversationHistory longSession
                                 ++ [{| role := user; content := text_of finalChunk |}]))%nat)
    by (vm_compute; lia).
  pose proof (proj2 (proj2 (system_prompt_leaves_context longCall fullEnv))
                7000 "call-1" finalChunk sampleWorld longSession
                {| ws := true; isConnected := true; reconnectAttempts := 0 |}) as H.
  cbv zeta in H.
  destruct H as (Hreq & _ & Hlong); try (vm_compute; reflexivity).
  split; [ exact Hs | ]. split; [ exact Hlen | ].
  split; [ exact (proj1 (Hlong Hlen)) | exact Hreq ].
Defined.

Lemma endCall_idempotent_witness :
  let waiting := endCall_begin 65000 "call-1" "completed" sampleBilled in
  let waiting2 := endCall_begin 66000 "call-1" "hangup" (fst waiting) in
  exists p1 p2,
    snd waiting = Some p1 /\ snd waiting2 = Some p2
    /\ activeSessions (fst waiting) !! "call-1" = Some (set_creditsUsed 5 sampleSession)
    /\ sttClients (fst waiting) !! "call-1" = None
    /\ let done1 := endCall_finish p1 HangupOk (fst waiting2) in
       let done2 := endCall_finish p2 HangupRejects (fst done1) in
       snd done1 = statsOf 65000 (set_creditsUsed 5 sampleSession)
       /\ snd done2 = statsOf 66000 (set_creditsUsed 5 sampleSession)
       /\ trace (fst done2)
          = trace (fst waiting)
            ++ [Call_signalwireEndCall "call-1";
                Emit_callEnded "call-1" (tenantId (set_creditsUsed 5 sampleSession))
                  ((65000 - startTime (set_creditsUsed 5 sampleSession)) / 1000)
                  (creditsUsed (set_creditsUsed 5 sampleSession)) "completed";
                Emit_callEnded "call-1" (tenantId (set_creditsUsed 5 sampleSession))
                  ((66000 - startTime (set_creditsUsed 5 sampleSession)) / 1000)
                  (creditsUsed (set_creditsUsed 5 sampleSession)) "hangup"]
       /\ count_disconnects "call-1" (trace (fst done2))
          = (count_disconnects "call-1" (trace sampleBilled)
             + match sttClients sampleBilled !! "call-1" with Some _ => 1 | None => 0 end)%nat
       /\ activeSessions (fst done2) !! "call-1" = None.
Proof.
  apply (proj2 (proj2 (proj2 (proj2
           (endCall_idempotent 65000 "call-1" "completed" HangupOk sampleBilled))))
           (set_creditsUsed 5 sampleSession) 66000 "hangup" HangupRejects).
  vm_compute. reflexivity.
Defined.

(** * The duration ceiling on a connected call *)





(** * The registries *)

Lemma aligned_emit e st : registries_aligned st -> registries_aligned (emit e st).
Proof. auto. Qed.

Lemma aligned_emit_all es st : registries_aligned st -> registries_aligned (emit_all es st).
Proof. auto. Qed.

Lemma aligned_set_openaiClient b st :
  registries_aligned st -> registries_aligned (set_openaiClient b st).
Proof. auto. Qed.

Lemma aligned_set_sttClients m st :
  registries_aligned st -> registries_aligned (set_sttClients m st).
Proof. auto. Qed.

Lemma aligned_putSession cid s st :
  is_Some (activeSessions st !! cid) ->
  registries_aligned st -> registries_aligned (putSession cid s st).
Proof.
  intros Hs (B & C). unfold registries_aligned. simpl.
  rewrite (dom_insert_lookup_L _ _ _ Hs). auto.
Qed.

Lemma aligned_queue cid q st :
  is_Some (activeSessions st !! cid) ->
  registries_aligned st ->
  registries_aligned (set_ttsQueue (<[cid := q]> (ttsQueue st)) st).
Proof.
  intros Hs (B & C). unfold registries_aligned. simpl.
  assert (Hq : is_Some (ttsQueue st !! cid)).
  { apply elem_of_dom. rewrite C. apply elem_of_dom. exact Hs. }
  rewrite (dom_insert_lookup_L _ _ _ Hq). auto.
Qed.

Ltac al :=
  lazymatch goal with
  | |- registries_aligned (emit _ _) => apply aligned_emit; al
  | |- registries_aligned (emit_all _ _) => apply aligned_emit_all; al
  | |- registries_aligned (set_openaiClient _ _) => apply aligned_set_openaiClient; al
  | |- registries_aligned (set_sttClients _ _) => apply aligned_set_sttClients; al
  | |- registries_aligned (putSession _ _ _) =>
      apply aligned_putSession; [ eexists; find_session | al ]
  | |- registries_aligned (set_ttsQueue (<[_ := _]> _) _) =>
      apply aligned_queue; [ eexists; find_session | al ]
  | |- _ => try assumption
  end.

Lemma aligned_initializeSession now cid tid aid ag camp known conn st :
  registries_aligned st ->
  registries_aligned (fst (initializeSession now cid tid aid ag camp known conn st)).
Proof.
  intros (B & C). unfold initializeSession. cbv zeta.
  destruct (DEEPGRAM_API_KEY _); [ destruct conn | ];
    unfold registries_aligned; simpl; rewrite ?dom_insert_L, B, C; split; reflexivity.
Qed.

Lemma aligned_endCall_begin now cid reason st :
  registries_aligned st -> registries_aligned (fst (endCall_begin now cid reason st)).
Proof.
  intros H. unfold endCall_begin.
  destruct (activeSessions st !! cid); [ | exact H ].
  destruct (sttClients st !! cid); exact H.
Qed.

Lemma aligned_endCall_finish p hang st :
  registries_aligned st -> registries_aligned (fst (endCall_finish p hang st)).
Proof.
  intros (B & C). unfold endCall_finish, registries_aligned. simpl.
  rewrite !dom_delete_L, B, C. split; reflexivity.
Qed.

Lemma aligned_endCall now cid reason hang st :
  registries_aligned st -> registries_aligned (fst (endCall now cid reason hang st)).
Proof.
  intros H. rewrite endCall_phases.
  pose proof (aligned_endCall_begin now cid reason st H) as Hb.
  destruct (endCall_begin now cid reason st) as [waiting [p | ]]; simpl in *.
  - exact (aligned_endCall_finish p hang waiting Hb).
  - exact Hb.
Qed.

Lemma aligned_updateCallCredits now cid hang st :
  registries_aligned st -> registries_aligned (updateCallCredits now cid hang st).
Proof.
  intros H. unfold updateCallCredits.
  destruct (activeSessions st !! cid) as [session | ] eqn:Hs; [ | exact H ].
  cbv zeta.
  match goal with
  | |- registries_aligned (if _ then fst (endCall_begin _ _ _ ?x) else _) =>
      assert (H1 : registries_aligned x)
  end.
  { destruct (_ >? _); al. }
  destruct (_ <=? _); [ apply aligned_endCall_begin | ]; exact H1.
Qed.

Lemma aligned_handleBargeIn cid st :
  registries_aligned st -> registries_aligned (handleBargeIn cid st).
Proof.
  intros H. unfold handleBargeIn.
  destruct (activeSessions st !! cid) as [session | ] eqn:Hs; cbv zeta; al.
Qed.

Lemma aligned_checkSilence now cid st :
  registries_aligned st -> registries_aligned (checkSilence now cid st).
Proof.
  intros H. unfold checkSilence.
  destruct (activeSessions st !! cid) as [session | ] eqn:Hs; [ | exact H ].
  destruct (silenceStart session); [ | exact H ].
  match goal with |- context [if ?c then _ else _] => destruct c end; al.
Qed.

Lemma aligned_handleAudioInput now cid audio hang st :
  registries_aligned st -> registries_aligned (handleAudioInput now cid audio hang st).
Proof.
  intros H. unfold handleAudioInput.
  destruct (activeSessions st !! cid) as [session | ] eqn:Hs; [ | exact H ].
  destruct (sttClients st !! cid) as [stt | ]; [ | exact H ].
  destruct (negb (connected stt)); [ exact H | ].
  cbv zeta. apply aligned_updateCallCredits, aligned_checkSilence.
  assert (H1 : registries_aligned
                 (if isSpeaking session
                  then if detectVoiceActivity audio then handleBargeIn cid st else st
                  else st)).
  { destruct (isSpeaking session); [ | exact H ].
    destruct (detectVoiceActivity audio); [ apply aligned_handleBargeIn | ]; exact H. }
  destruct (isConnected stt && ws stt); apply aligned_emit; exact H1.
Qed.

Lemma aligned_generateResponse cid session c st :
  activeSessions st !! cid = Some session ->
  registries_aligned st -> registries_aligned (fst (generateResponse cid session c st)).
Proof.
  intros Hs H. unfold generateResponse, getOpenAI.
  destruct (openaiClient st); [ | destruct (OPENAI_API_KEY (env st)) ];
    cbv zeta; try destruct c; unfold fst; al.
Qed.

Lemma aligned_speakResponse cid text stream sched st :
  registries_aligned st -> registries_aligned (speakResponse cid text stream sched st).
Proof.
  intros H. unfold speakResponse.
  destruct (activeSessions st !! cid) as [session | ] eqn:Hs; [ | exact H ].
  cbv zeta. destruct (negb _).
  - al.
  - destruct (playback cid (frames stream) (throws stream) sched
                (set_isSpeaking true session)) as [s' es]. al.
Qed.

Lemma aligned_processUserInput cid userText w st :
  registries_aligned st -> registries_aligned (processUserInput cid userText w st).
Proof.
  intros H. unfold processUserInput.
  destruct (activeSessions st !! cid) as [session | ] eqn:Hs; [ | exact H ].
  cbv zeta.
  set (s1 := push_history {| role := user; content := userText |} session).
  assert (H1 : registries_aligned (putSession cid s1 st)) by al.
  pose proof (aligned_generateResponse cid s1 (llm w) (putSession cid s1 st)
                (lookup_insert_eq _ _ _) H1) as H2.
  destruct (generateResponse cid s1 (llm w) (putSession cid s1 st)) as [st2 response].
  simpl in H2. destruct (negb (truthy response)); [ exact H2 | ].
  destruct (activeSessions st2 !! cid) as [s2 | ] eqn:Hs2; [ | exact H2 ].
  apply aligned_speakResponse. al.
Qed.

Lemma aligned_sendGreeting cid stream sched st :
  registries_aligned st -> registries_aligned (sendGreeting cid stream sched st).
Proof.
  intros H. unfold sendGreeting.
  destruct (activeSessions st !! cid) as [session | ] eqn:Hs; [ | exact H ].
  cbv zeta. apply aligned_speakResponse. al.
Qed.

Lemma aligned_onSttEvent now cid ev w st :
  registries_aligned st -> registries_aligned (onSttEvent now cid ev w st).
Proof.
  intros H. destruct ev; simpl; try exact H.
  - destruct (activeSessions st !! cid) as [session | ] eqn:Hs; destruct (negb _); al.
  - destruct (activeSessions st !! cid) as [session | ] eqn:Hs;
      (destruct (negb _); [ exact H | ]; apply aligned_processUserInput; al).
  - destruct (activeSessions st !! cid) as [session | ] eqn:Hs; al.
Qed.

Lemma aligned_onDetachedSttEvent now cid ev w st :
  registries_aligned st -> registries_aligned (onDetachedSttEvent now cid ev w st).
Proof.
  intros H. destruct ev; simpl; try exact H.
  - destruct (negb _); al.
  - destruct (negb _); [ exact H | ]. apply aligned_processUserInput. al.
Qed.

Lemma aligned_events now cid w (own : bool) evs : forall st,
  registries_aligned st ->
  registries_aligned
    (fold_left (fun (acc : Orchestrator) (ev : SttEvent) =>
                  if own then onSttEvent now cid ev w acc
                  else onDetachedSttEvent now cid ev w acc) evs st).
Proof.
  induction evs as [ | ev evs IH]; intros st H; simpl; auto.
  apply IH. destruct own;
    [ apply aligned_onSttEvent | apply aligned_onDetachedSttEvent ]; exact H.
Qed.

Lemma aligned_step st op : registries_aligned st -> registries_aligned (step st op).
Proof.
  intros H. destruct op; simpl.
  - apply aligned_initializeSession; exact H.
  - apply aligned_sendGreeting; exact H.
  - apply aligned_handleAudioInput; exact H.
  - unfold sttMessage. destruct (sttClients st !! callId0) as [stt | ]; [ | exact H ].
    destruct (ws stt); [ | exact H ].
    exact (aligned_events now callId0 w true (handleMessage m) st H).
  - apply aligned_endCall; exact H.
  - apply aligned_endCall_begin; exact H.
  - exact (aligned_endCall_finish p hang st H).
  - exact (aligned_events now callId0 w own (handleMessage m) st H).
Qed.

Lemma aligned_run ops st : registries_aligned st -> registries_aligned (run ops st).
Proof.
  unfold run. revert st. induction ops as [ | op ops IH]; intros st H; simpl; auto.
  apply IH, aligned_step, H.
Qed.

(** In every run, with [endCall]s that wait while other operations go
    on, the sessions, the audio buffers and the speech queues are
    registered for exactly the same calls.  The transcription clients are
    not part of this: [endCall] unregisters the client of a registered
    call before it waits for the telephony provider, and the other three
    entries only when it completes. *)
Theorem registries_stay_aligned ops e :
  let st := run ops (newOrchestrator e) in
  dom (audioBuffers st) = dom (activeSessions st)
  /\ dom (ttsQueue st) = dom (activeSessions st)
  /\ (forall now cid reason,
        let waiting := fst (endCall_begin now cid reason st) in
        activeSessions st !! cid = None
        \/ (sttClients waiting !! cid = None
            /\ activeSessions waiting !! cid = activeSessions st !! cid
            /\ audioBuffers waiting = audioBuffers st
            /\ ttsQueue waiting = ttsQueue st))
  /\ (forall p hang,
        let ended := fst (endCall_finish p hang st) in
        activeSessions ended !! pe_callId p = None
        /\ audioBuffers ended !! pe_callId p = None
        /\ ttsQueue ended !! pe_callId p = None
        /\ sttClients ended = sttClients st).
Proof.
  cbv zeta.
  assert (H : registries_aligned (run ops (newOrchestrator e))).
  { apply aligned_run. split; reflexivity. }
  destruct H as (B & C). split; [ exact B | ]. split; [ exact C | ]. split.
  - intros now cid reason.
    destruct (activeSessions (run ops (newOrchestrator e)) !! cid) as [s | ] eqn:Hs;
      [ right | left; reflexivity ].
    rewrite (endCall_begin_registered now cid reason _ s Hs). simpl.
    destruct (sttClients (run ops (newOrchestrator e)) !! cid) eqn:Hc; simpl.
    + rewrite lookup_delete_eq. repeat split; auto.
    + rewrite Hc. repeat split; auto.
  - intros p hang. unfold endCall_finish. simpl. rewrite !lookup_delete_eq. repeat split.
Qed.

(** * After the end of a call *)




(** * The greeting *)

Lemma playback_undisturbed cid chunks thr s :
  isSpeaking s = true -> fst (playback cid chunks thr [] s) = s.
Proof.
  intros Hsp. induction chunks as [ | chunk rest IH]; simpl; [ reflexivity | ].
  change (run_slot [] s) with s. rewrite Hsp. simpl.
  destruct (playback cid rest thr [] s) as [s' es]. simpl in *. exact IH.
Qed.

Lemma speakResponse_undisturbed cid text stream st s :
  activeSessions st !! cid = Some s ->
  activeSessions (speakResponse cid text stream [] st) !! cid
  = Some (set_isSpeaking false s).
Proof.
  intros Hs. unfold speakResponse. rewrite Hs. cbv zeta. destruct (negb _).
  - simpl. rewrite lookup_insert_eq. reflexivity.
  - pose proof (playback_undisturbed cid (frames stream) (throws stream)
                  (set_isSpeaking true s) eq_refl) as Hp.
    destruct (playback cid (frames stream) (throws stream) [] (set_isSpeaking true s))
      as [s' es].
    simpl in Hp. subst s'. simpl. rewrite lookup_insert_eq. reflexivity.
Qed.

(** [sendGreeting] on an unknown call does nothing.  On a registered call
    it appends the agent's greeting, whatever it is (an empty one too), to
    the history as an assistant turn and to the transcript summary as an
    "AI:" line, and speaks it: "aiSpeaking" is emitted with the greeting
    and the session is left not speaking.  Handlers that run while the
    greeting plays may add turns and lines after these.  When none runs,
    nothing else is added, the credits are what they were, and only events
    of speech are emitted: the generator is not called. *)
Theorem sendGreeting_records cid stream sched st :
  match activeSessions st !! cid with
  | None => sendGreeting cid stream sched st = st
  | Some s =>
      exists s' rest more new,
        activeSessions (sendGreeting cid stream sched st) !! cid = Some s'
        /\ conversationHistory s'
           = conversationHistory s
             ++ {| role := assistant; content := greeting (agent s) |} :: rest
        /\ Forall nonsystem rest
        /\ transcriptSummary s'
           = transcriptSummary s ++ ("AI: " +:+ greeting (agent s)) :: more
        /\ isSpeaking s' = false
        /\ trace (sendGreeting cid stream sched st) = trace st ++ new
        /\ In (Emit_aiSpeaking cid (greeting (agent s))) new
        /\ (sched = [] ->
            conversationHistory s'
            = conversationHistory s
              ++ [{| role := assistant; content := greeting (agent s) |}]
            /\ transcriptSummary s'
               = transcriptSummary s ++ ["AI: " +:+ greeting (agent s)]
            /\ creditsUsed s' = creditsUsed s
            /\ Forall (fun e => speech_effect e = true) new
            /\ requests new = [])
  end.
Proof.
  unfold sendGreeting. destruct (activeSessions st !! cid) as [s | ] eqn:Hs; [ | reflexivity ].
  cbv zeta.
  set (s1 := push_summary ("AI: " +:+ greeting (agent s))
               (push_history {| role := assistant; content := greeting (agent s) |} s)).
  assert (Hl1 : activeSessions (putSession cid s1 st) !! cid = Some s1)
    by (simpl; apply lookup_insert_eq).
  destruct (speakResponse_session cid (greeting (agent s)) stream sched
              (putSession cid s1 st) s1 Hl1) as (s' & Hs' & Hev & Hsp).
  destruct (speakResponse_trace cid (greeting (agent s)) stream sched (putSession cid s1 st))
    as (new & Ht & Hnew).
  destruct Hev as (_ & _ & _ & _ & _ & _ & _ & (rest & Hh & Hrest) & (more & Hsum)).
  exists s', rest, more, new. split; [ exact Hs' | ].
  split; [ rewrite Hh; subst s1; simpl; rewrite <- app_assoc; reflexivity | ].
  split; [ exact Hrest | ].
  split; [ rewrite Hsum; subst s1; simpl; rewrite <- app_assoc; reflexivity | ].
  split; [ exact Hsp | ]. split; [ exact Ht | ]. split.
  - unfold speakResponse in Ht. rewrite Hl1 in Ht. cbv zeta in Ht.
    destruct (negb _) in Ht.
    + simpl in Ht. rewrite <- !app_assoc in Ht. apply app_inv_head in Ht.
      subst new. simpl. auto.
    + destruct (playback cid (frames stream) (throws stream) sched (set_isSpeaking true s1))
        as [s2 es].
      simpl in Ht. rewrite <- !app_assoc in Ht. apply app_inv_head in Ht.
      subst new. simpl. auto.
  - intros ->.
    rewrite (speakResponse_undisturbed cid (greeting (agent s)) stream _ s1 Hl1) in Hs'.
    inversion Hs'; subst s'.
    split; [ reflexivity | ]. split; [ reflexivity | ]. split; [ reflexivity | ].
    split; [ exact Hnew | apply requests_speech; exact Hnew ].
Qed.
